(** * Repacks catalog browser: the derived-view pipeline of [src/App.tsx]

    A shallow embedding of the component's pure computations (tag
    extraction, filter, sort, pagination, page-number list) and of its
    event handlers, followed by the properties of the specification.

    Conventions of the embedding:
    - a JavaScript string is a [string]: a sequence of characters taken as
      code units in the range 0..255;
    - a JavaScript number that holds an integer is a [Z]; the only
      non-integer value that the code can produce, [NaN] out of
      [parseInt], is [None];
    - an array is a [list]; an object used as a dictionary is an
      association list in property-creation order;
    - [String.prototype.toLowerCase] is a parameter of the development:
      no property below depends on what it does to a string. *)

From Stdlib Require Import List String Ascii ZArith QArith Qround Bool Lia.
From Stdlib Require Import Permutation Sorted.
Import ListNotations.

Local Open Scope string_scope.
Local Open Scope Z_scope.

(** ** Strings *)

(** [s.includes(sub)]: [sub] occurs in [s] at some position. *)
Fixpoint includes (s sub : string) : bool :=
  String.prefix sub s
  || match s with
     | EmptyString => false
     | String _ rest => includes rest sub
     end.

(** [s.split(", ")]: the pieces of [s] between the occurrences of the
    separator, found from left to right; [cur] holds the characters of the
    piece being read, last one first. *)
Fixpoint split_from (cur : list ascii) (s : string) : list string :=
  match s with
  | EmptyString => [string_of_list_ascii (rev cur)]
  | String c rest =>
      match rest with
      | String d rest' =>
          if (Ascii.eqb c ","%char && Ascii.eqb d " "%char)%bool
          then string_of_list_ascii (rev cur) :: split_from [] rest'
          else split_from (c :: cur) rest
      | EmptyString => split_from (c :: cur) rest
      end
  end.

Definition split_comma_space (s : string) : list string := split_from [] s.

(** An ASCII instance of [toLowerCase], for evaluation on sample data. *)
Definition ascii_lower (c : ascii) : ascii :=
  let n := nat_of_ascii c in
  if ((65 <=? n)%nat && (n <=? 90)%nat)%bool then ascii_of_nat (n + 32) else c.

Fixpoint ascii_toLowerCase (s : string) : string :=
  match s with
  | EmptyString => EmptyString
  | String c rest => String (ascii_lower c) (ascii_toLowerCase rest)
  end.

(** ** Data model *)

(** Modelled from the spec: the interface [IGame] is declared in
    [src/interfaces/IGame], outside the component's file; its fields are
    those the component reads, with the types of the specification's item
    record. The array [games] of [data.json] is an argument of whatever
    reads it. *)
Record IGame : Type := mkGame {
  title : string;
  genres : string;
  comments : Z;
  image : string;
  link : string
}.

(** The [useState] cells of [App]. *)
Record State : Type := mkState {
  sortBy : string;
  currentPage : Z;
  selectedTags : list string;
  searchQuery : string;
  tagSearchQuery : string;
  pageInputValue : string
}.

Definition setSortBy (v : string) (st : State) : State :=
  mkState v (currentPage st) (selectedTags st) (searchQuery st)
          (tagSearchQuery st) (pageInputValue st).

Definition setCurrentPage (v : Z) (st : State) : State :=
  mkState (sortBy st) v (selectedTags st) (searchQuery st)
          (tagSearchQuery st) (pageInputValue st).

Definition setSelectedTags (v : list string) (st : State) : State :=
  mkState (sortBy st) (currentPage st) v (searchQuery st)
          (tagSearchQuery st) (pageInputValue st).

Definition setSearchQuery (v : string) (st : State) : State :=
  mkState (sortBy st) (currentPage st) (selectedTags st) v
          (tagSearchQuery st) (pageInputValue st).

Definition setTagSearchQuery (v : string) (st : State) : State :=
  mkState (sortBy st) (currentPage st) (selectedTags st) (searchQuery st)
          v (pageInputValue st).

Definition setPageInputValue (v : string) (st : State) : State :=
  mkState (sortBy st) (currentPage st) (selectedTags st) (searchQuery st)
          (tagSearchQuery st) v.

(** The initial values of the cells (lines 51-56). *)
Definition initialState : State := mkState "comments-desc" 1 [] "" "" "".

(** ** Arrays and numbers *)

(** [Array.prototype.slice(start, end)], negative indices included. *)
Definition slice {A : Type} (l : list A) (start stop : Z) : list A :=
  let len := Z.of_nat (List.length l) in
  let k := if start <? 0 then Z.max (len + start) 0 else Z.min start len in
  let final := if stop <? 0 then Z.max (len + stop) 0 else Z.min stop len in
  firstn (Z.to_nat (final - k)) (skipn (Z.to_nat k) l).

(** [Array.prototype.sort(cmp)]. The language leaves the algorithm to the
    engine and fixes its result for a consistent comparator: the elements
    in non-decreasing order of [cmp], elements that compare equal in their
    original order. The insertion sort below is one such algorithm;
    [stable_sorted_unique] shows that the result does not depend on the
    choice. [cmp a b <= 0] reads "a does not come after b". *)
Section ArraySort.

Context {A : Type} (cmp : A -> A -> Z).

Fixpoint insert_sorted (x : A) (l : list A) : list A :=
  match l with
  | [] => [x]
  | y :: rest =>
      if cmp x y <=? 0 then x :: y :: rest else y :: insert_sorted x rest
  end.

Fixpoint Array_sort (l : list A) : list A :=
  match l with
  | [] => []
  | x :: rest => insert_sorted x (Array_sort rest)
  end.

End ArraySort.

(** [Math.ceil] and [Math.floor] on the exact quotient of two integers. The
    double-precision quotient of two integers below 2^53 has the same
    ceiling and floor as the exact one. *)
Definition Math_ceil (q : Q) : Z := Qceiling q.
Definition Math_floor (q : Q) : Z := Qfloor q.

(** ** Sort and pagination (lines 72-88) *)

Definition gamesPerPage : Z := 12.

(** The comparator of [sortedGames]. *)
Definition compareGames (sortBy : string) (a b : IGame) : Z :=
  if String.eqb sortBy "comments-asc" then comments a - comments b
  else if String.eqb sortBy "comments-desc" then comments b - comments a
  else 0.

Definition sortedGames (sortBy : string) (filtered : list IGame) : list IGame :=
  Array_sort (compareGames sortBy) filtered.

Definition indexOfLastGame (currentPage : Z) : Z := currentPage * gamesPerPage.

Definition indexOfFirstGame (currentPage : Z) : Z :=
  indexOfLastGame currentPage - gamesPerPage.

Definition currentGames {A : Type} (sorted : list A) (currentPage : Z) : list A :=
  slice sorted (indexOfFirstGame currentPage) (indexOfLastGame currentPage).

Definition totalPages {A : Type} (sorted : list A) : Z :=
  Math_ceil (inject_Z (Z.of_nat (List.length sorted)) / inject_Z gamesPerPage)%Q.

(** ** The page-number display list (lines 108-146) *)

(** An entry of [pageNumbers]: a number or the string ["..."]. *)
Inductive PageEntry : Type :=
| Num (n : Z)
| Ellipsis.

(** [for (let i = lo; i <= hi; i++) pageNumbers.push(i)]: [count_up n i]
    runs [n] iterations from [i]; the loop runs [hi - lo + 1] of them, none
    when that is not positive. *)
Fixpoint count_up (n : nat) (i : Z) : list PageEntry :=
  match n with
  | O => []
  | S n' => Num i :: count_up n' (i + 1)
  end.

Definition push_range (lo hi : Z) : list PageEntry :=
  count_up (Z.to_nat (hi - lo + 1)) lo.

Definition maxPagesToShow : Z := 5.

(** [startPage] as first assigned (lines 119-122). *)
Definition initialStartPage (currentPage : Z) : Z :=
  Z.max (currentPage - Math_floor (inject_Z (maxPagesToShow - 2) / inject_Z 2)%Q) 2.

(** [endPage] (line 124). *)
Definition endPage (totalPages currentPage : Z) : Z :=
  Z.min (initialStartPage currentPage + maxPagesToShow - 3) (totalPages - 1).

(** [startPage] after the adjustment of lines 126-128. *)
Definition startPage (totalPages currentPage : Z) : Z :=
  if endPage totalPages currentPage - initialStartPage currentPage
     <? maxPagesToShow - 3
  then Z.max (endPage totalPages currentPage - (maxPagesToShow - 3) + 1) 2
  else initialStartPage currentPage.

Definition getPageNumbers (totalPages currentPage : Z) : list PageEntry :=
  if totalPages <=? maxPagesToShow then push_range 1 totalPages
  else
    [Num 1]
    ++ (if startPage totalPages currentPage >? 2 then [Ellipsis] else [])
    ++ push_range (startPage totalPages currentPage) (endPage totalPages currentPage)
    ++ (if endPage totalPages currentPage <? totalPages - 1 then [Ellipsis] else [])
    ++ [Num totalPages].

(** ** Page-jump input (lines 100-106) *)

(** White space skipped by [parseInt]: TAB, LF, VT, FF, CR, SP, NBSP. *)
Definition is_white_space (c : ascii) : bool :=
  let n := nat_of_ascii c in
  ((9 <=? n)%nat && (n <=? 13)%nat) || (n =? 32)%nat || (n =? 160)%nat.

Fixpoint trim_start (s : string) : string :=
  match s with
  | EmptyString => EmptyString
  | String c rest => if is_white_space c then trim_start rest else s
  end.

Definition digit_value (c : ascii) : option Z :=
  let n := nat_of_ascii c in
  if ((48 <=? n)%nat && (n <=? 57)%nat)%bool then Some (Z.of_nat (n - 48)) else None.

(** The value of the longest prefix of decimal digits of [s], [acc] being
    the value read so far ([None]: no digit yet). *)
Fixpoint read_digits (acc : option Z) (s : string) : option Z :=
  match s with
  | EmptyString => acc
  | String c rest =>
      match digit_value c with
      | Some d =>
          read_digits (Some (10 * match acc with Some a => a | None => 0 end + d)) rest
      | None => acc
      end
  end.

(** [parseInt(s, 10)]: leading white space is skipped, one sign is read,
    then the longest run of decimal digits; [None] is [NaN]. The value is
    the exact integer: a double holds it exactly below 2^53, and rounding
    it above does not change how it compares with a page count. *)
Definition parseInt10 (s : string) : option Z :=
  let t := trim_start s in
  let '(sign, body) :=
    match t with
    | String c rest =>
        if Ascii.eqb c "-"%char then (-1, rest)
        else if Ascii.eqb c "+"%char then (1, rest)
        else (1, t)
    | EmptyString => (1, t)
    end in
  match read_digits None body with
  | Some v => Some (sign * v)
  | None => None
  end.

(** [handlePageInputSubmit], given the [totalPages] of the current render. *)
Definition handlePageInputSubmit (totalPages : Z) (st : State) : State :=
  match parseInt10 (pageInputValue st) with
  | Some pageNumber =>
      if ((pageNumber >=? 1) && (pageNumber <=? totalPages))%bool
      then setCurrentPage pageNumber st
      else setPageInputValue "" st
  | None => setPageInputValue "" st
  end.

(** ** Tag selection (lines 94-98) *)

(** The updater passed to [setSelectedTags] by [toggleTag]. *)
Definition toggleTag (tag : string) (prev : list string) : list string :=
  if existsb (String.eqb tag) prev
  then filter (fun t => negb (String.eqb t tag)) prev
  else prev ++ [tag].

(** ** Objects as dictionaries, for [frequencyMap] *)

(** [new Set(l)] read back with [Array.from]: the distinct elements of [l]
    in order of first occurrence. *)
Fixpoint distinct_from (seen : list string) (l : list string) : list string :=
  match l with
  | [] => []
  | x :: rest =>
      if existsb (String.eqb x) seen then distinct_from seen rest
      else x :: distinct_from (x :: seen) rest
  end.

Definition Set_to_array (l : list string) : list string := distinct_from [] l.

(** A value stored in [frequencyMap]: a number, or the string that [+ 1]
    makes of an inherited member of the object, which is the text of that
    member followed by a character 1 ([ones] of them once the key has been
    counted [ones] times). *)
Inductive JSValue : Type :=
| JNumber (n : Z)
| JText (member : string) (ones : nat).

(** The own properties of an object created by [{}], in creation order. *)
Definition JSObject : Type := list (string * JSValue).

(** The names that [{}] inherits from [Object.prototype]: eleven methods
    and the accessor [__proto__]. *)
Definition prototype_members : list string :=
  ["constructor"; "hasOwnProperty"; "isPrototypeOf"; "propertyIsEnumerable";
   "toLocaleString"; "toString"; "valueOf"; "__defineGetter__";
   "__defineSetter__"; "__lookupGetter__"; "__lookupSetter__"; "__proto__"].

Definition is_inherited (key : string) : bool :=
  existsb (String.eqb key) prototype_members.

(** What [acc[key]] reads. *)
Inductive Lookup : Type :=
| Undefined
| Own (v : JSValue)
| Inherited (member : string).

Fixpoint own_property (o : JSObject) (key : string) : option JSValue :=
  match o with
  | [] => None
  | (k, v) :: rest => if String.eqb k key then Some v else own_property rest key
  end.

(** [acc[key]]: the own property if there is one, else the inherited
    member of that name, else [undefined]. *)
Definition obj_get (o : JSObject) (key : string) : Lookup :=
  match own_property o key with
  | Some v => Own v
  | None => if is_inherited key then Inherited key else Undefined
  end.

Fixpoint set_own (o : JSObject) (key : string) (v : JSValue) : JSObject :=
  match o with
  | [] => [(key, v)]
  | (k, w) :: rest =>
      if String.eqb k key then (k, v) :: rest else (k, w) :: set_own rest key v
  end.

(** [acc[key] = v] for a number or a string [v]: the assignment creates or
    updates an own property, which keeps its place; for the key
    [__proto__] it calls the inherited setter, which ignores a value that
    is neither an object nor [null]. *)
Definition obj_set (o : JSObject) (key : string) (v : JSValue) : JSObject :=
  if String.eqb key "__proto__" then o else set_own o key v.

(** [(x || 0) + 1] for what [acc[key]] read: [undefined] and 0 are falsy;
    a function, an object and a non-empty string are truthy, and [+ 1]
    appends a 1 to their text. *)
Definition count_up_from (x : Lookup) : JSValue :=
  match x with
  | Undefined => JNumber (0 + 1)
  | Own (JNumber n) => JNumber ((if n =? 0 then 0 else n) + 1)
  | Own (JText member ones) => JText member (S ones)
  | Inherited member => JText member 1
  end.

(** [b[1] - a[1]] as [sort] uses it: the difference of two numbers; with a
    string that is no numeral the difference is [NaN], which [sort] takes
    for 0. *)
Definition count_difference (a b : string * JSValue) : Z :=
  match snd b, snd a with
  | JNumber y, JNumber x => y - x
  | _, _ => 0
  end.

Fixpoint all_digits (s : string) : bool :=
  match s with
  | EmptyString => true
  | String c rest =>
      match digit_value c with Some _ => all_digits rest | None => false end
  end.

(** The array index a property key denotes, if any: a decimal numeral with
    no leading zero, at most 2^32 - 2. *)
Definition array_index (key : string) : option Z :=
  match key with
  | EmptyString => None
  | String c rest =>
      if (all_digits key && (negb (Ascii.eqb c "0"%char) || String.eqb rest ""))%bool
      then match read_digits None key with
           | Some n => if n <=? 4294967294 then Some n else None
           | None => None
           end
      else None
  end.

Definition is_index_entry (e : string * JSValue) : bool :=
  match array_index (fst e) with Some _ => true | None => false end.

Definition index_of_entry (e : string * JSValue) : Z :=
  match array_index (fst e) with Some n => n | None => 0 end.

(** [Object.entries(o)]: array-index keys in ascending order, then the
    other keys in creation order. *)
Definition Object_entries (o : JSObject) : list (string * JSValue) :=
  Array_sort (fun a b => index_of_entry a - index_of_entry b)
             (filter is_index_entry o)
  ++ filter (fun e => negb (is_index_entry e)) o.

Section Pipeline.

Variable toLowerCase : string -> string.

(** *** Tag extraction, once at load (lines 30-48) *)

(** The constant [genres] of the source (the record field has the name). *)
Definition allGenres (games : list IGame) : list string :=
  filter (fun str => (negb (String.eqb str "2014") && negb (String.eqb str ""))%bool)
         (Set_to_array
            (List.concat (map (fun game => split_comma_space (toLowerCase (genres game)))
                         games))).

(** The [reduce] of lines 34-40: [acc[val] = (acc[val] || 0) + 1]. *)
Definition frequencyMap (games : list IGame) : JSObject :=
  fold_left
    (fun acc val => obj_set acc val (count_up_from (obj_get acc val)))
    (allGenres games) [].

Definition sortedByFrequency (games : list IGame) : list (string * JSValue) :=
  Array_sort count_difference (Object_entries (frequencyMap games)).

Definition tags (games : list IGame) : list string :=
  map fst (slice (sortedByFrequency games) 0
                 (Z.of_nat (List.length (sortedByFrequency games)))).

Definition filteredTags (games : list IGame) (st : State) : list string :=
  filter (fun tag => includes (toLowerCase tag) (toLowerCase (tagSearchQuery st)))
         (tags games).

(** *** Filter (lines 63-70) *)

(** The predicate of [games.filter]. A non-empty string is truthy, the
    empty one falsy. *)
Definition matches (selected : list string) (query : string) (game : IGame) : bool :=
  ((List.length selected =? 0)%nat
   || forallb (fun tag => includes (toLowerCase (genres game)) tag) selected)
  && (if String.eqb query "" then true
      else includes (toLowerCase (title game)) (toLowerCase query)).

Definition filteredGames (games : list IGame) (st : State) : list IGame :=
  filter (matches (selectedTags st) (searchQuery st)) games.

(** The derived values of one render. *)
Definition viewGames (games : list IGame) (st : State) : list IGame :=
  sortedGames (sortBy st) (filteredGames games st).

Definition viewPage (games : list IGame) (st : State) : list IGame :=
  currentGames (viewGames games st) (currentPage st).

Definition viewTotalPages (games : list IGame) (st : State) : Z :=
  totalPages (viewGames games st).

(** *** Events and handlers (the JSX of lines 148-362) *)

(** One constructor per control that carries a handler. *)
Inductive Event : Type :=
| TagSearchChange (v : string)
| TagCheckboxClick (tag : string)
| ClearFiltersClick
| SearchChange (v : string)
| SortChange (v : string)
| PreviousClick
| PageButtonClick (pageNumber : Z)
| NextClick
| PageInputChange (v : string)
| PageInputSubmit.

Definition entry_is (pageNumber : Z) (e : PageEntry) : bool :=
  match e with
  | Num n => n =? pageNumber
  | Ellipsis => false
  end.

(** The pagination controls are rendered when [currentGames.length > 0]. *)
Definition paginationShown (games : list IGame) (st : State) : bool :=
  (0 <? List.length (viewPage games st))%nat.

(** Whether the control of an event is on the page and enabled: a tag
    checkbox exists for each of [filteredTags], the sort selector offers
    two values, "previous" is disabled on page 1 and "next" on the last
    page, and a numbered button exists for each number of
    [getPageNumbers]. *)
Definition available (games : list IGame) (st : State) (ev : Event) : bool :=
  match ev with
  | TagSearchChange _ | ClearFiltersClick | SearchChange _ => true
  | TagCheckboxClick tag => existsb (String.eqb tag) (filteredTags games st)
  | SortChange v => String.eqb v "comments-desc" || String.eqb v "comments-asc"
  | PreviousClick => paginationShown games st && negb (currentPage st =? 1)
  | NextClick =>
      paginationShown games st && negb (currentPage st =? viewTotalPages games st)
  | PageButtonClick pageNumber =>
      paginationShown games st
      && existsb (entry_is pageNumber)
                 (getPageNumbers (viewTotalPages games st) (currentPage st))
  | PageInputChange _ | PageInputSubmit => paginationShown games st
  end.

(** The state updates a handler makes. *)
Definition handle (games : list IGame) (st : State) (ev : Event) : State :=
  match ev with
  | TagSearchChange v => setTagSearchQuery v st
  | TagCheckboxClick tag => setSelectedTags (toggleTag tag (selectedTags st)) st
  | ClearFiltersClick => setSelectedTags [] (setTagSearchQuery "" st)
  | SearchChange v => setSearchQuery v st
  | SortChange v => setSortBy v st
  | PreviousClick => setCurrentPage (currentPage st - 1) st
  | PageButtonClick pageNumber => setCurrentPage pageNumber st
  | NextClick => setCurrentPage (currentPage st + 1) st
  | PageInputChange v => setPageInputValue v st
  | PageInputSubmit => handlePageInputSubmit (viewTotalPages games st) st
  end.

(** [setSelectedTags] always receives a new array ([filter], a spread or
    a literal), which never is the previous one. *)
Definition fresh_selectedTags (ev : Event) : bool :=
  match ev with
  | TagCheckboxClick _ | ClearFiltersClick => true
  | _ => false
  end.

(** The effect of lines 90-92: it runs after a render in which one of
    [selectedTags], [searchQuery], [sortBy] is not the value of the
    previous render. *)
Definition resetPageEffect (ev : Event) (before after : State) : State :=
  if fresh_selectedTags ev
     || negb (String.eqb (searchQuery before) (searchQuery after))
     || negb (String.eqb (sortBy before) (sortBy after))
  then setCurrentPage 1 after
  else after.

(** One interaction: the handler, then the effects of the render it
    causes. [None]: the control is absent or disabled. *)
Definition step (games : list IGame) (st : State) (ev : Event) : option State :=
  if available games st ev
  then Some (resetPageEffect ev st (handle games st ev))
  else None.

(** The states of the component between two interactions. *)
Inductive reachable (games : list IGame) : State -> Prop :=
| reachable_initial : reachable games initialState
| reachable_step st ev st' :
    reachable games st -> step games st ev = Some st' -> reachable games st'.

(** The states React renders: those between interactions, and after each
    handler the state it leaves, which is rendered and committed before
    the effect of lines 90-92 runs. *)
Inductive rendered (games : list IGame) : State -> Prop :=
| rendered_settled st : reachable games st -> rendered games st
| rendered_pending st ev :
    reachable games st -> available games st ev = true ->
    rendered games (handle games st ev).

End Pipeline.

(** ** Count display (lines 155 and 282-284) *)

(** [str.replace(/\B(?=(\d{3})+(?!\d))/g, ".")] on the decimal text of a
    count. The pattern matches the empty string at a position that
    - is not a word boundary: the characters on its two sides are both
      word characters or both not (the ends of the string count as not),
    - is followed by a run of digits, up to the first non-digit, whose
      length is a positive multiple of 3;
    a ["."] is put at every such position. *)
Definition is_digit (c : ascii) : bool :=
  match digit_value c with Some _ => true | None => false end.

(** [\w]: a letter, a digit or the underscore. *)
Definition is_word_char (c : ascii) : bool :=
  let n := nat_of_ascii c in
  (((48 <=? n)%nat && (n <=? 57)%nat) || ((65 <=? n)%nat && (n <=? 90)%nat)
   || ((97 <=? n)%nat && (n <=? 122)%nat) || (n =? 95)%nat)%bool.

(** The length of the run of digits [s] starts with. *)
Fixpoint digit_run (s : string) : nat :=
  match s with
  | EmptyString => O
  | String c rest => if is_digit c then S (digit_run rest) else O
  end.

(** [(?=(\d{3})+(?!\d))] at the start of [s]. *)
Definition groups_follow (s : string) : bool :=
  ((0 <? digit_run s)%nat && (digit_run s mod 3 =? 0)%nat)%bool.

(** [\B] between the character [prev] ([None] at the start) and [c]. *)
Definition not_word_boundary (prev : option ascii) (c : ascii) : bool :=
  Bool.eqb (match prev with Some p => is_word_char p | None => false end)
           (is_word_char c).

Fixpoint insert_separators (prev : option ascii) (s : string) : string :=
  match s with
  | EmptyString => EmptyString
  | String c rest =>
      if (not_word_boundary prev c && groups_follow s)%bool
      then String "."%char (String c (insert_separators (Some c) rest))
      else String c (insert_separators (Some c) rest)
  end.

Definition groupThousands (s : string) : string := insert_separators None s.

(** ** Specification-side notions *)

(** [sub] is a substring of [s]. *)
Definition substring_of (sub s : string) : Prop :=
  exists pre post, s = pre ++ sub ++ post.

(** [x] occurs at a position of [l] before one of [y]. *)
Definition before {A : Type} (x y : A) (l : list A) : Prop :=
  exists l1 l2 l3, l = (l1 ++ x :: l2 ++ y :: l3)%list.

(** The items with [c] comments. *)
Definition has_comments (c : Z) (game : IGame) : bool := comments game =? c.

(** A list in non-decreasing order of an integer key. *)
Definition key_ordered {A : Type} (key : A -> Z) : list A -> Prop :=
  StronglySorted (fun a b => key a <= key b).

(** What holds between interactions: the page number is positive and,
    when the result is not empty, one of its pages. *)
Definition page_in_range (toLowerCase : string -> string) (games : list IGame)
    (st : State) : Prop :=
  1 <= currentPage st /\
  (filteredGames toLowerCase games st <> [] ->
   currentPage st <= viewTotalPages toLowerCase games st).

(** The number of items whose genre field lists [tag]. *)
Definition tag_occurrences (toLowerCase : string -> string)
    (games : list IGame) (tag : string) : nat :=
  List.length
    (filter (fun game =>
               existsb (String.eqb tag) (split_comma_space (toLowerCase (genres game))))
            games).

(** The entry that the first count of a key leaves in an object: the
    number 1, or for the name of an inherited member the text of that
    member followed by 1. *)
Definition first_count (key : string) : string * JSValue :=
  (key, if is_inherited key then JText key 1 else JNumber 1).

(** A key other than [__proto__]. *)
Definition not_proto (key : string) : bool := negb (String.eqb key "__proto__").

(** *** Decimal numerals, as a reader of the page-jump field sees them *)














(** The page numbers of a display list, ellipses left out. *)
Fixpoint page_values (l : list PageEntry) : list Z :=
  match l with
  | [] => []
  | Num n :: rest => n :: page_values rest
  | Ellipsis :: rest => page_values rest
  end.

(** [s] without its characters ["."]. *)
Fixpoint without_separators (s : string) : string :=
  match s with
  | EmptyString => EmptyString
  | String c rest =>
      if Ascii.eqb c "."%char then without_separators rest
      else String c (without_separators rest)
  end.

(** ** Sample data *)

(** Three items, two of them of genre RPG. *)
Definition sampleGames : list IGame :=
  [ mkGame "Alpha" "Action" 3 "alpha.jpg" "https://example.org/alpha";
    mkGame "Beta" "RPG" 5 "beta.jpg" "https://example.org/beta";
    mkGame "Gamma" "RPG" 1 "gamma.jpg" "https://example.org/gamma" ].

(** Four items, two of them with a genre that names a member of
    [Object.prototype]. *)
Definition prototypeGames : list IGame :=
  [ mkGame "Alpha" "Action" 3 "alpha.jpg" "https://example.org/alpha";
    mkGame "Delta" "__proto__" 2 "delta.jpg" "https://example.org/delta";
    mkGame "Epsilon" "Constructor" 4 "epsilon.jpg" "https://example.org/epsilon";
    mkGame "Beta" "RPG" 5 "beta.jpg" "https://example.org/beta" ].

(** Thirty items, which fill three pages; one title differs. *)
Definition thirtyGames : list IGame :=
  map (fun n => mkGame (if (n =? 0)%nat then "First" else "Game") "Action, RPG"
                       (Z.of_nat n) "game.jpg" "https://example.org/game")
      (seq 0 30).

(** The state on page 3 of the unfiltered list, "abc" typed in the
    page-jump field. *)
Definition pageThree : State := mkState "comments-desc" 3 [] "" "" "abc".

(** ** Properties of the string primitives *)

Lemma prefix_iff (sub s : string) :
  String.prefix sub s = true <-> exists post, s = sub ++ post.
Proof.
  revert s; induction sub as [|c sub IH]; intros s.
  - split; [intros _; now exists s | intros _; now destruct s].
  - destruct s as [|d s]; simpl.
    + split; [discriminate | intros [post H]; discriminate].
    + destruct (ascii_dec c d) as [->|Hne].
      * rewrite IH. split; intros [post H]; exists post.
        -- now rewrite H.
        -- now inversion H.
      * split; [discriminate | intros [post H]; inversion H; congruence].
Qed.

Lemma includes_iff (s sub : string) :
  includes s sub = true <-> substring_of sub s.
Proof.
  unfold substring_of. induction s as [|c s IH].
  - cbn [includes]. rewrite orb_false_r, prefix_iff. split.
    + intros [post H]. now exists "", post.
    + intros [pre [post H]]. destruct pre; [now exists post | discriminate].
  - cbn [includes]. rewrite orb_true_iff, prefix_iff, IH. split.
    + intros [[post H] | [pre [post H]]].
      * now exists "", post.
      * exists (String c pre), post. simpl. now rewrite H.
    + intros [pre [post H]]. destruct pre as [|d pre].
      * left. now exists post.
      * right. exists pre, post. simpl in H. now inversion H.
Qed.

(** ** C1: the filter *)

Section FilterFacts.

Variable toLowerCase : string -> string.

(** C1. An item of the array is in the filtered result if and only if
    (no tag is selected, or every selected tag is a substring of the
    item's lower-cased genre field) and (the search query is empty, or
    the lower-cased title contains the lower-cased query). *)
Theorem filteredGames_iff (games : list IGame) (st : State) (game : IGame) :
  In game (filteredGames toLowerCase games st) <->
  In game games /\
  (selectedTags st = [] \/
   forall tag, In tag (selectedTags st) ->
               substring_of tag (toLowerCase (genres game))) /\
  (searchQuery st = "" \/
   substring_of (toLowerCase (searchQuery st)) (toLowerCase (title game))).
Proof.
  unfold filteredGames, matches. rewrite filter_In, andb_true_iff, orb_true_iff.
  rewrite forallb_forall, Nat.eqb_eq, length_zero_iff_nil.
  assert (Hq : (if String.eqb (searchQuery st) "" then true
                else includes (toLowerCase (title game))
                       (toLowerCase (searchQuery st))) = true <->
               (searchQuery st = "" \/
                substring_of (toLowerCase (searchQuery st))
                  (toLowerCase (title game)))).
  { destruct (String.eqb_spec (searchQuery st) "") as [E|E].
    - split; [now left | reflexivity].
    - rewrite includes_iff. split; [now right | now intros [? | ?]]. }
  rewrite Hq.
  assert (Ht : (forall x, In x (selectedTags st) ->
                  includes (toLowerCase (genres game)) x = true) <->
               (forall tag, In tag (selectedTags st) ->
                  substring_of tag (toLowerCase (genres game)))).
  { split; intros H x Hx; apply includes_iff; now apply H. }
  rewrite Ht. reflexivity.
Qed.

End FilterFacts.

(** ** C2, C10: pagination *)

Section Pagination.

Context {A : Type}.

Lemma totalPages_div (l : list A) :
  totalPages l = (Z.of_nat (List.length l) + 11) / 12.
Proof.
  unfold totalPages, Math_ceil, Qceiling, Qfloor, gamesPerPage.
  set (n := Z.of_nat (List.length l)). cbn.
  rewrite Z.mul_1_r.
  pose proof (Z.div_mod (- n) 12 ltac:(lia)) as H1.
  pose proof (Z.mod_pos_bound (- n) 12 ltac:(lia)) as H2.
  apply Z.div_unique with (r := 11 - (- n) mod 12); lia.
Qed.

(** [totalPages] is the least number of pages of 12 that hold the list. *)
Lemma totalPages_bounds (l : list A) :
  12 * (totalPages l - 1) < Z.of_nat (List.length l) <= 12 * totalPages l.
Proof.
  rewrite totalPages_div.
  pose proof (Z.div_mod (Z.of_nat (List.length l) + 11) 12 ltac:(lia)) as H1.
  pose proof (Z.mod_pos_bound (Z.of_nat (List.length l) + 11) 12 ltac:(lia)) as H2.
  lia.
Qed.

Lemma nth_error_slice (l : list A) (start stop : Z) (i : nat) :
  0 <= start <= stop ->
  nth_error (slice l start stop) i =
  if Z.of_nat i <? stop - start
  then nth_error l (Z.to_nat start + i)
  else None.
Proof.
  intros Hss. unfold slice.
  destruct (Z.ltb_spec start 0) as [?|_]; [lia|].
  destruct (Z.ltb_spec stop 0) as [?|_]; [lia|].
  rewrite nth_error_firstn, nth_error_skipn.
  set (len := Z.of_nat (List.length l)).
  assert (Hnone : forall k, (List.length l <= k)%nat -> nth_error l k = None)
    by (intros k; apply nth_error_None).
  destruct (Nat.ltb_spec i (Z.to_nat (Z.min stop len - Z.min start len)));
    destruct (Z.ltb_spec (Z.of_nat i) (stop - start)); try lia.
  - f_equal. lia.
  - symmetry. apply Hnone. lia.
  - reflexivity.
Qed.

(** C2. For a list of n items and a page number N >= 1, the visible page
    is the slice [(N-1)*12, N*12) of the list: its i-th item is item
    (N-1)*12 + i of the list for i < 12, and it has no other item; and
    [totalPages] is ceil(n / 12), the integer k with
    12*(k-1) < n <= 12*k, which is 0 for the empty list. *)
Theorem pagination_slice (l : list A) (N : Z) :
  1 <= N ->
  (forall i : nat,
      nth_error (currentGames l N) i =
      if Z.of_nat i <? 12
      then nth_error l (Z.to_nat ((N - 1) * 12) + i)
      else None) /\
  currentGames l N = firstn 12 (skipn (Z.to_nat ((N - 1) * 12)) l) /\
  12 * (totalPages l - 1) < Z.of_nat (List.length l) <= 12 * totalPages l /\
  (List.length l = 0%nat -> totalPages l = 0).
Proof.
  intros HN.
  assert (Hnth : forall i : nat,
             nth_error (currentGames l N) i =
             if Z.of_nat i <? 12
             then nth_error l (Z.to_nat ((N - 1) * 12) + i)
             else None).
  { intros i. unfold currentGames, indexOfFirstGame, indexOfLastGame, gamesPerPage.
    rewrite nth_error_slice by lia.
    replace (N * 12 - (N * 12 - 12)) with 12 by lia.
    replace (N * 12 - 12) with ((N - 1) * 12) by lia. reflexivity. }
  split; [exact Hnth|]. split; [|split].
  - apply nth_error_ext. intros i.
    rewrite Hnth, nth_error_firstn, nth_error_skipn.
    destruct (Z.ltb_spec (Z.of_nat i) 12); destruct (Nat.ltb_spec i 12);
      try lia; reflexivity.
  - apply totalPages_bounds.
  - intros H0. pose proof (totalPages_bounds l). lia.
Qed.

Lemma currentGames_length (l : list A) (page : Z) :
  (List.length (currentGames l page) <= 12)%nat.
Proof.
  unfold currentGames, indexOfFirstGame, indexOfLastGame, gamesPerPage, slice.
  rewrite length_firstn, length_skipn.
  destruct (Z.ltb_spec (page * 12 - 12) 0); destruct (Z.ltb_spec (page * 12) 0); lia.
Qed.

Lemma currentGames_beyond_end (l : list A) (page : Z) :
  Z.of_nat (List.length l) <= (page - 1) * 12 -> currentGames l page = [].
Proof.
  intros H. apply length_zero_iff_nil.
  unfold currentGames, indexOfFirstGame, indexOfLastGame, gamesPerPage, slice.
  rewrite length_firstn, length_skipn.
  destruct (Z.ltb_spec (page * 12 - 12) 0); destruct (Z.ltb_spec (page * 12) 0); lia.
Qed.

(** C10. The visible page is defined for every page number, holds at
    most 12 items, and is empty when its first index (currentPage-1)*12
    is at or beyond the number of items. *)
Theorem currentGames_total (l : list A) (page : Z) :
  (List.length (currentGames l page) <= 12)%nat /\
  (Z.of_nat (List.length l) <= (page - 1) * 12 -> currentGames l page = []).
Proof.
  split; [apply currentGames_length | apply currentGames_beyond_end].
Qed.

End Pagination.

(** ** C6, C7: the page-number display list *)

Lemma count_up_seq (n m : nat) :
  count_up n (Z.of_nat m) = map (fun k => Num (Z.of_nat k)) (seq m n).
Proof.
  revert m; induction n as [|n IH]; intros m; simpl; [reflexivity|].
  f_equal. replace (Z.of_nat m + 1) with (Z.of_nat (S m)) by lia. apply IH.
Qed.

Lemma count_up_In (n : nat) (i p : Z) :
  In (Num p) (count_up n i) -> i <= p < i + Z.of_nat n.
Proof.
  revert i; induction n as [|n IH]; intros i; simpl; [tauto|].
  intros [H | H]; [inversion H; lia | apply IH in H; lia].
Qed.

Lemma count_up_no_ellipsis (n : nat) (i : Z) : ~ In Ellipsis (count_up n i).
Proof.
  revert i; induction n as [|n IH]; intros i; simpl; [tauto|].
  intros [H | H]; [discriminate | now apply IH in H].
Qed.

Lemma floor_half_window :
  Math_floor (inject_Z (maxPagesToShow - 2) / inject_Z 2)%Q = 1.
Proof. reflexivity. Qed.

Lemma startPage_at_least_2 (totalPages currentPage : Z) :
  2 <= startPage totalPages currentPage.
Proof.
  unfold startPage.
  destruct (_ <? _); [|unfold initialStartPage]; apply Z.le_max_r.
Qed.

Lemma endPage_before_last (totalPages currentPage : Z) :
  endPage totalPages currentPage <= totalPages - 1.
Proof. unfold endPage. apply Z.le_min_r. Qed.

(** The window of numbers between the first and the last page, for more
    than 5 pages: three numbers from max(currentPage - 1, 2) while
    currentPage + 1 is before the last page, and otherwise the two numbers
    totalPages - 2 and totalPages - 1. *)
Lemma page_window_shape (totalPages currentPage : Z) :
  5 < totalPages -> 1 <= currentPage <= totalPages ->
  2 <= startPage totalPages currentPage /\
  endPage totalPages currentPage <= totalPages - 1 /\
  (currentPage + 1 <= totalPages - 1 ->
   startPage totalPages currentPage = Z.max (currentPage - 1) 2 /\
   endPage totalPages currentPage = startPage totalPages currentPage + 2) /\
  (totalPages - 1 < currentPage + 1 ->
   startPage totalPages currentPage = totalPages - 2 /\
   endPage totalPages currentPage = totalPages - 1).
Proof.
  intros Htp Hcp. unfold startPage, endPage, initialStartPage.
  rewrite floor_half_window. unfold maxPagesToShow.
  destruct (Z.ltb_spec
              (Z.min (Z.max (currentPage - 1) 2 + 5 - 3) (totalPages - 1)
               - Z.max (currentPage - 1) 2) (5 - 3)); lia.
Qed.

(** C6. With 42 pages on page 7 the list is 1, "...", 6, 7, 8, "...", 42;
    with at most 5 pages it is 1, ..., totalPages, with no ellipsis. *)
Theorem getPageNumbers_display :
  getPageNumbers 42 7 = [Num 1; Ellipsis; Num 6; Num 7; Num 8; Ellipsis; Num 42] /\
  forall totalPages currentPage : Z,
    totalPages <= 5 ->
    getPageNumbers totalPages currentPage
    = map (fun k => Num (Z.of_nat k)) (seq 1 (Z.to_nat totalPages)) /\
    ~ In Ellipsis (getPageNumbers totalPages currentPage).
Proof.
  split; [reflexivity|].
  intros tp cp Htp. unfold getPageNumbers, maxPagesToShow.
  destruct (Z.leb_spec tp 5) as [_|?]; [|lia].
  unfold push_range. split.
  - replace (tp - 1 + 1) with tp by lia. apply (count_up_seq (Z.to_nat tp) 1).
  - apply count_up_no_ellipsis.
Qed.

(** C7. On the last of 42 pages the window of the display list is 40, 41:
    two numbers, where the window of page 7 has the three numbers 6, 7, 8
    and that of page 1 the three numbers 2, 3, 4. The adjustment of
    [startPage] leaves the window one number short of the width it has away
    from the end, and short by the very test that triggers it. *)
Theorem page_window_narrow_at_end :
  (startPage 42 7, endPage 42 7) = (6, 8) /\
  (startPage 42 1, endPage 42 1) = (2, 4) /\
  (startPage 42 42, endPage 42 42) = (40, 41) /\
  getPageNumbers 42 42 = [Num 1; Ellipsis; Num 40; Num 41; Num 42] /\
  endPage 42 42 - startPage 42 42 <> endPage 42 7 - startPage 42 7 /\
  (endPage 42 42 - startPage 42 42 <? maxPagesToShow - 3) = true.
Proof.
  split; [reflexivity|]. split; [reflexivity|]. split; [reflexivity|].
  split; [reflexivity|]. split; [|reflexivity].
  intros H. vm_compute in H. discriminate H.
Qed.

(** ** C9: toggling a tag *)

Lemma toggleTag_absent (tag : string) (prev : list string) :
  ~ In tag prev -> toggleTag tag prev = (prev ++ [tag])%list.
Proof.
  intros H. unfold toggleTag.
  destruct (existsb (String.eqb tag) prev) eqn:E; [|reflexivity].
  apply existsb_exists in E. destruct E as [x [Hx Heq]].
  apply String.eqb_eq in Heq. now subst.
Qed.

Lemma toggleTag_present (tag : string) (prev : list string) :
  In tag prev -> toggleTag tag prev = filter (fun t => negb (String.eqb t tag)) prev.
Proof.
  intros H. unfold toggleTag.
  destruct (existsb (String.eqb tag) prev) eqn:E; [reflexivity|].
  assert (existsb (String.eqb tag) prev = true) as E'
      by (apply existsb_exists; exists tag; split; [assumption | apply String.eqb_refl]).
  congruence.
Qed.

Lemma In_remove_tag (tag t : string) (l : list string) :
  In t (filter (fun t => negb (String.eqb t tag)) l) <-> In t l /\ t <> tag.
Proof.
  rewrite filter_In, negb_true_iff. 
  destruct (String.eqb_spec t tag); intuition congruence.
Qed.

(** Toggling an absent tag twice gives back the very same array. *)
Lemma toggleTag_twice_absent (tag : string) (prev : list string) :
  ~ In tag prev -> toggleTag tag (toggleTag tag prev) = prev.
Proof.
  intros H. rewrite (toggleTag_absent tag prev H).
  rewrite toggleTag_present by (apply in_or_app; right; now left).
  rewrite filter_app. simpl. rewrite String.eqb_refl. simpl. rewrite app_nil_r.
  apply forallb_filter_id. apply forallb_forall. intros x Hx.
  apply negb_true_iff. destruct (String.eqb_spec x tag); congruence.
Qed.

(** C9. Toggling a tag twice gives a list with the same members as the
    original; one toggle adds the tag when it is absent and removes it
    when it is present. *)
Theorem toggleTag_round_trip (tag : string) (prev : list string) :
  (forall t, In t (toggleTag tag (toggleTag tag prev)) <-> In t prev) /\
  (~ In tag prev -> In tag (toggleTag tag prev)) /\
  (In tag prev -> ~ In tag (toggleTag tag prev)).
Proof.
  split; [|split].
  - intros t. destruct (in_dec string_dec tag prev) as [Hin | Hout].
    + rewrite (toggleTag_present tag prev Hin).
      rewrite toggleTag_absent by (rewrite In_remove_tag; tauto).
      rewrite in_app_iff, In_remove_tag. simpl.
      destruct (string_dec t tag); subst; intuition congruence.
    + now rewrite toggleTag_twice_absent.
  - intros H. rewrite toggleTag_absent by assumption.
    apply in_or_app; right; now left.
  - intros H. rewrite toggleTag_present by assumption.
    rewrite In_remove_tag. tauto.
Qed.

(** ** C5: the sort *)

Section Before.

Context {A : Type}.

Lemma before_cons (x y a : A) (l : list A) :
  before x y (a :: l) <-> (a = x /\ In y l) \/ before x y l.
Proof.
  split.
  - intros [l1 [l2 [l3 H]]]. destruct l1 as [|b l1]; simpl in H; inversion H; subst.
    + left. split; [reflexivity|]. apply in_or_app. right. now left.
    + right. now exists l1, l2, l3.
  - intros [[-> Hy] | [l1 [l2 [l3 H]]]].
    + apply in_split in Hy. destruct Hy as [l2 [l3 ->]]. now exists [], l2, l3.
    + exists (a :: l1), l2, l3. simpl. now rewrite H.
Qed.

Lemma before_nil (x y : A) : ~ before x y [].
Proof. intros [l1 [l2 [l3 H]]]. now destruct l1. Qed.

Lemma before_In (x y : A) (l : list A) : before x y l -> In x l /\ In y l.
Proof.
  intros [l1 [l2 [l3 ->]]]. split; apply in_or_app; right.
  - now left.
  - right. apply in_or_app. right. now left.
Qed.

Lemma before_total (x y : A) (l : list A) :
  In x l -> In y l -> x <> y -> before x y l \/ before y x l.
Proof.
  intros Hx Hy Hne. induction l as [|a l IH]; [contradiction|].
  rewrite !before_cons. destruct Hx as [-> | Hx], Hy as [-> | Hy]; tauto.
Qed.

Lemma sorted_before (R : A -> A -> Prop) (x y : A) (l : list A) :
  StronglySorted R l -> before x y l -> R x y.
Proof.
  induction 1 as [|a l Hs IH Hall]; intros Hb.
  - now apply before_nil in Hb.
  - apply before_cons in Hb. destruct Hb as [[<- Hy] | Hb]; [|now apply IH].
    rewrite Forall_forall in Hall. now apply Hall.
Qed.

End Before.

(** A comparator that is the difference of an integer key, as both
    comparators of [sortedGames] are. *)
Section KeySort.

Context {A : Type} (cmp : A -> A -> Z) (key : A -> Z).
Hypothesis cmp_key : forall a b, cmp a b = key a - key b.

Lemma insert_sorted_perm (x : A) (l : list A) :
  Permutation (insert_sorted cmp x l) (x :: l).
Proof.
  induction l as [|y l IH]; simpl; [reflexivity|].
  destruct (cmp x y <=? 0); [reflexivity|].
  rewrite IH. apply perm_swap.
Qed.

Lemma Array_sort_perm (l : list A) : Permutation (Array_sort cmp l) l.
Proof.
  induction l as [|x l IH]; simpl; [reflexivity|].
  rewrite insert_sorted_perm. now constructor.
Qed.

Lemma insert_sorted_ordered (x : A) (l : list A) :
  key_ordered key l -> key_ordered key (insert_sorted cmp x l).
Proof.
  unfold key_ordered. induction 1 as [|y l Hs IH Hall]; simpl.
  - repeat constructor.
  - rewrite cmp_key. destruct (Z.leb_spec (key x - key y) 0).
    + constructor; [now constructor|]. constructor; [lia|].
      rewrite Forall_forall in *. intros z Hz. specialize (Hall z Hz). lia.
    + constructor; [assumption|].
      rewrite Forall_forall in *. intros z Hz.
      apply (Permutation_in _ (insert_sorted_perm x l)) in Hz.
      destruct Hz as [<- | Hz]; [lia | now apply Hall].
Qed.

Lemma Array_sort_ordered (l : list A) : key_ordered key (Array_sort cmp l).
Proof.
  induction l as [|x l IH]; simpl; [constructor | now apply insert_sorted_ordered].
Qed.

(** Stability: the elements of one key keep their order. *)
Lemma insert_sorted_filter (c : Z) (x : A) (l : list A) :
  filter (fun a => key a =? c) (insert_sorted cmp x l)
  = filter (fun a => key a =? c) (x :: l).
Proof.
  induction l as [|y l IH]; [reflexivity|].
  cbn [insert_sorted]. rewrite cmp_key.
  destruct (Z.leb_spec (key x - key y) 0); [reflexivity|].
  cbn [filter] in *. rewrite IH.
  destruct (Z.eqb_spec (key x) c); destruct (Z.eqb_spec (key y) c);
    try reflexivity; lia.
Qed.

Lemma Array_sort_stable (c : Z) (l : list A) :
  filter (fun a => key a =? c) (Array_sort cmp l) = filter (fun a => key a =? c) l.
Proof.
  induction l as [|x l IH]; [reflexivity|].
  cbn [Array_sort]. rewrite insert_sorted_filter. cbn [filter]. now rewrite IH.
Qed.

(** Two lists in key order whose elements of each key are the same, in
    the same order, are equal: the result of a stable sort does not
    depend on the algorithm. *)
Lemma stable_sorted_unique (l1 l2 : list A) :
  key_ordered key l1 -> key_ordered key l2 ->
  (forall c, filter (fun a => key a =? c) l1 = filter (fun a => key a =? c) l2) ->
  l1 = l2.
Proof.
  unfold key_ordered. intros H1; revert l2.
  induction H1 as [|a l1 Hs1 IH Hall1]; intros l2 H2 Hf.
  - destruct l2 as [|b l2]; [reflexivity|].
    specialize (Hf (key b)). cbn [filter] in Hf.
    rewrite Z.eqb_refl in Hf. discriminate.
  - destruct H2 as [|b l2 Hs2 Hall2].
    + specialize (Hf (key a)). cbn [filter] in Hf.
      rewrite Z.eqb_refl in Hf. discriminate.
    + rewrite Forall_forall in Hall1, Hall2.
      assert (Hmem : forall (l l' : list A) z,
                 filter (fun a => key a =? key z) l
                 = filter (fun a => key a =? key z) l' ->
                 In z l -> In z l').
      { intros l l' z E Hz.
        assert (Hz' : In z (filter (fun a => key a =? key z) l))
          by (apply filter_In; split; [assumption | apply Z.eqb_refl]).
        rewrite E in Hz'. now apply filter_In in Hz'. }
      assert (Hab : key a = key b).
      { assert (Ha : In a (b :: l2))
          by (apply (Hmem (a :: l1)); [apply Hf | now left]).
        assert (Hb : In b (a :: l1))
          by (apply (Hmem (b :: l2)); [symmetry; apply Hf | now left]).
        destruct Ha as [-> | Ha]; [reflexivity|].
        destruct Hb as [-> | Hb]; [reflexivity|].
        specialize (Hall1 b Hb). specialize (Hall2 a Ha). lia. }
      pose proof (Hf (key a)) as Hhead. cbn [filter] in Hhead.
      rewrite <- Hab, Z.eqb_refl in Hhead. inversion Hhead; subst b.
      f_equal. apply IH; [assumption|]. intros c.
      specialize (Hf c). cbn [filter] in Hf.
      destruct (key a =? c); [now inversion Hf | assumption].
Qed.

Lemma Array_sort_unique (l s : list A) :
  key_ordered key s ->
  (forall c, filter (fun a => key a =? c) s = filter (fun a => key a =? c) l) ->
  s = Array_sort cmp l.
Proof.
  intros Hs Hf. apply stable_sorted_unique; [assumption | apply Array_sort_ordered|].
  intros c. now rewrite Array_sort_stable.
Qed.

End KeySort.

Lemma compareGames_desc (a b : IGame) :
  compareGames "comments-desc" a b = - comments a - - comments b.
Proof. unfold compareGames. cbn. lia. Qed.

Lemma compareGames_asc (a b : IGame) :
  compareGames "comments-asc" a b = comments a - comments b.
Proof. reflexivity. Qed.

Lemma sortedGames_perm (order : string) (filtered : list IGame) :
  Permutation (sortedGames order filtered) filtered.
Proof.
  unfold sortedGames. induction filtered as [|x l IH]; simpl; [reflexivity|].
  transitivity (x :: Array_sort (compareGames order) l); [|now constructor].
  generalize (Array_sort (compareGames order) l). intros s.
  induction s as [|y s IHs]; simpl; [reflexivity|].
  destruct (compareGames order x y <=? 0); [reflexivity|].
  rewrite IHs. apply perm_swap.
Qed.

Lemma sortedGames_length (order : string) (filtered : list IGame) :
  List.length (sortedGames order filtered) = List.length filtered.
Proof. apply Permutation_length, sortedGames_perm. Qed.

(** C5. Of two items with different comment counts, one precedes the other
    in the descending order exactly when it follows it in the ascending
    order (the one with more comments first, respectively last); the items
    of one comment count are, in both orders, in the order they have in
    the filtered set. *)
Theorem sort_directions (filtered : list IGame) :
  let desc := sortedGames "comments-desc" filtered in
  let asc := sortedGames "comments-asc" filtered in
  (forall x y, comments x <> comments y ->
               (before x y desc <-> before y x asc)) /\
  (forall c, filter (has_comments c) desc = filter (has_comments c) filtered /\
             filter (has_comments c) asc = filter (has_comments c) filtered) /\
  (forall x y, before x y desc -> comments y <= comments x) /\
  (forall x y, before x y asc -> comments x <= comments y) /\
  Permutation desc filtered /\ Permutation asc filtered.
Proof.
  intros desc asc.
  assert (Hd : forall x y, before x y desc -> comments y <= comments x).
  { intros x y Hb.
    pose proof (Array_sort_ordered _ _ compareGames_desc filtered) as Hs.
    apply (sorted_before _ x y _ Hs) in Hb. lia. }
  assert (Ha : forall x y, before x y asc -> comments x <= comments y).
  { intros x y Hb.
    pose proof (Array_sort_ordered _ _ compareGames_asc filtered) as Hs.
    now apply (sorted_before _ x y _ Hs) in Hb. }
  assert (Hpd : Permutation desc filtered) by apply sortedGames_perm.
  assert (Hpa : Permutation asc filtered) by apply sortedGames_perm.
  repeat split; try assumption.
  - intros Hb. pose proof (Hd _ _ Hb) as Hle.
    destruct (before_In _ _ _ Hb) as [Hx Hy].
    assert (Hx' : In x asc)
      by (apply (Permutation_in _ (Permutation_sym Hpa)), (Permutation_in _ Hpd Hx)).
    assert (Hy' : In y asc)
      by (apply (Permutation_in _ (Permutation_sym Hpa)), (Permutation_in _ Hpd Hy)).
    destruct (before_total y x asc Hy' Hx') as [Hyx | Hxy];
      [congruence | assumption |].
    apply Ha in Hxy. lia.
  - intros Hb. pose proof (Ha _ _ Hb) as Hle.
    destruct (before_In _ _ _ Hb) as [Hy Hx].
    assert (Hx' : In x desc)
      by (apply (Permutation_in _ (Permutation_sym Hpd)), (Permutation_in _ Hpa Hx)).
    assert (Hy' : In y desc)
      by (apply (Permutation_in _ (Permutation_sym Hpd)), (Permutation_in _ Hpa Hy)).
    destruct (before_total x y desc Hx' Hy') as [Hxy | Hyx];
      [congruence | assumption |].
    apply Hd in Hyx. lia.
  - pose proof (Array_sort_stable _ _ compareGames_desc (- c) filtered) as Hs.
    unfold desc, sortedGames, has_comments.
    erewrite filter_ext; [rewrite Hs; apply filter_ext|];
      intros a; cbv beta; destruct (Z.eqb_spec (- comments a) (- c));
      destruct (Z.eqb_spec (comments a) c); try reflexivity; lia.
  - apply (Array_sort_stable _ _ compareGames_asc c filtered).
Qed.

(** ** C4: the page-jump form *)

Example parseInt10_zero : parseInt10 "0" = Some 0.
Proof. reflexivity. Qed.

Example parseInt10_letters : parseInt10 "abc" = None.
Proof. reflexivity. Qed.

Example parseInt10_empty : parseInt10 "" = None.
Proof. reflexivity. Qed.

(** A string whose first character is neither white space, nor a sign, nor
    a digit does not parse. *)
Lemma parseInt10_not_a_number (c : ascii) (rest : string) :
  is_white_space c = false -> Ascii.eqb c "-" = false -> Ascii.eqb c "+" = false ->
  digit_value c = None ->
  parseInt10 (String c rest) = None.
Proof.
  intros Hw Hm Hp Hd. unfold parseInt10. cbn [trim_start].
  rewrite Hw, Hm, Hp. cbn [read_digits]. now rewrite Hd.
Qed.

(** [parseInt] reads a leading numeral and ignores what follows it. *)
Example parseInt10_numeral_prefix : parseInt10 " +7abc" = Some 7.
Proof. reflexivity. Qed.



(** The handler changes neither the filter nor the sort order. *)
Lemma handlePageInputSubmit_keeps (totalPages : Z) (st : State) :
  selectedTags (handlePageInputSubmit totalPages st) = selectedTags st /\
  searchQuery (handlePageInputSubmit totalPages st) = searchQuery st /\
  sortBy (handlePageInputSubmit totalPages st) = sortBy st.
Proof.
  unfold handlePageInputSubmit.
  destruct (parseInt10 (pageInputValue st)) as [n|];
    [destruct ((n >=? 1) && (n <=? totalPages))%bool|]; now repeat split.
Qed.

(** The parser against the reading of a numeral. *)















Section Interaction.

Variable toLowerCase : string -> string.
Variable games : list IGame.


(** *** C3: the page invariant *)

(** The filtered set and the page count depend on three cells only. *)
Lemma view_ext (st1 st2 : State) :
  selectedTags st1 = selectedTags st2 ->
  searchQuery st1 = searchQuery st2 ->
  sortBy st1 = sortBy st2 ->
  filteredGames toLowerCase games st1 = filteredGames toLowerCase games st2 /\
  viewTotalPages toLowerCase games st1 = viewTotalPages toLowerCase games st2.
Proof.
  intros Ht Hq Hs. unfold viewTotalPages, viewGames, filteredGames.
  now rewrite Ht, Hq, Hs.
Qed.

Lemma viewTotalPages_positive (st : State) :
  filteredGames toLowerCase games st <> [] ->
  1 <= viewTotalPages toLowerCase games st.
Proof.
  intros Hne. unfold viewTotalPages.
  pose proof (totalPages_bounds (viewGames toLowerCase games st)) as Hb.
  unfold viewGames in *. rewrite sortedGames_length in Hb.
  destruct (filteredGames toLowerCase games st); [congruence|].
  simpl List.length in Hb. lia.
Qed.

(** When the pagination controls are on the page, the page is one of the
    pages of a non-empty result. *)
Lemma paginationShown_page (st : State) :
  paginationShown toLowerCase games st = true ->
  1 <= currentPage st ->
  filteredGames toLowerCase games st <> [] /\
  currentPage st <= viewTotalPages toLowerCase games st.
Proof.
  unfold paginationShown, viewPage, viewTotalPages. intros Hshown Hpage.
  apply Nat.ltb_lt in Hshown.
  pose proof (totalPages_bounds (viewGames toLowerCase games st)) as Hb.
  pose proof (currentGames_beyond_end (viewGames toLowerCase games st) (currentPage st))
    as Hempty.
  assert (Hlt : (currentPage st - 1) * 12
                < Z.of_nat (List.length (viewGames toLowerCase games st))).
  { destruct (Z.lt_ge_cases ((currentPage st - 1) * 12)
                (Z.of_nat (List.length (viewGames toLowerCase games st))))
      as [?|Hge]; [assumption|].
    rewrite (Hempty Hge) in Hshown. simpl in Hshown. lia. }
  split; [|lia].
  intros Hnil. unfold viewGames in Hlt.
  rewrite sortedGames_length, Hnil in Hlt. simpl in Hlt. lia.
Qed.

(** The numbered buttons name pages of the result. *)
Lemma getPageNumbers_range (totalPages page pageNumber : Z) :
  1 <= totalPages ->
  existsb (entry_is pageNumber) (getPageNumbers totalPages page) = true ->
  1 <= pageNumber <= totalPages.
Proof.
  intros Htp Hex. apply existsb_exists in Hex. destruct Hex as [e [Hin He]].
  destruct e as [n|]; [|discriminate]. simpl in He. apply Z.eqb_eq in He. subst n.
  unfold getPageNumbers in Hin.
  destruct (Z.leb_spec totalPages maxPagesToShow) as [Hle|Hgt].
  - apply count_up_In in Hin. lia.
  - pose proof (startPage_at_least_2 totalPages page) as Hstart.
    pose proof (endPage_before_last totalPages page) as Hend.
    repeat (apply in_app_or in Hin; destruct Hin as [Hin | Hin]).
    + destruct Hin as [Hin | []]. inversion Hin. lia.
    + destruct (_ >? _); [destruct Hin as [Hin | []]; discriminate | destruct Hin].
    + apply count_up_In in Hin. lia.
    + destruct (_ <? _); [destruct Hin as [Hin | []]; discriminate | destruct Hin].
    + destruct Hin as [Hin | []]. inversion Hin. lia.
Qed.

Lemma page_in_range_first (st : State) :
  currentPage st = 1 -> page_in_range toLowerCase games st.
Proof.
  intros H. unfold page_in_range. rewrite H. split; [lia|].
  apply viewTotalPages_positive.
Qed.

Lemma page_in_range_moved (st st' : State) :
  selectedTags st' = selectedTags st ->
  searchQuery st' = searchQuery st ->
  sortBy st' = sortBy st ->
  1 <= currentPage st' ->
  (filteredGames toLowerCase games st <> [] ->
   currentPage st' <= viewTotalPages toLowerCase games st) ->
  page_in_range toLowerCase games st'.
Proof.
  intros Ht Hq Hs H1 H2. destruct (view_ext st' st Ht Hq Hs) as [Hf Hp].
  unfold page_in_range. now rewrite Hf, Hp.
Qed.

Lemma step_page_in_range (st st' : State) (ev : Event) :
  page_in_range toLowerCase games st ->
  step toLowerCase games st ev = Some st' ->
  page_in_range toLowerCase games st'.
Proof.
  intros [Hone Hmax]. unfold step.
  destruct (available toLowerCase games st ev) eqn:Hav; [|discriminate].
  intros H; inversion H; subst st'; clear H.
  unfold resetPageEffect.
  destruct ev as [v|tag| |v|v| |pageNumber| |v| ]; cbn [fresh_selectedTags handle orb].
  - (* tag search *)
    cbn. rewrite !String.eqb_refl. cbn.
    apply (page_in_range_moved st); try reflexivity; assumption.
  - now apply page_in_range_first.
  - now apply page_in_range_first.
  - (* search *)
    cbn. destruct (String.eqb_spec (searchQuery st) v) as [E|E]; cbn.
    + rewrite String.eqb_refl. cbn.
      apply (page_in_range_moved st); try reflexivity; auto.
    + now apply page_in_range_first.
  - (* sort *)
    cbn. rewrite String.eqb_refl. cbn.
    destruct (String.eqb_spec (sortBy st) v) as [E|E]; cbn.
    + apply (page_in_range_moved st); try reflexivity; auto.
    + now apply page_in_range_first.
  - (* previous *)
    cbn in Hav |- *. rewrite !String.eqb_refl. cbn.
    apply andb_true_iff in Hav. destruct Hav as [Hshown Hfirst].
    apply negb_true_iff, Z.eqb_neq in Hfirst.
    destruct (paginationShown_page st Hshown Hone) as [_ Hle].
    apply (page_in_range_moved st); try reflexivity; cbn; lia.
  - (* numbered button *)
    cbn in Hav |- *. rewrite !String.eqb_refl. cbn.
    apply andb_true_iff in Hav. destruct Hav as [Hshown Hnum].
    destruct (paginationShown_page st Hshown Hone) as [Hne Hle].
    apply getPageNumbers_range in Hnum; [|lia].
    apply (page_in_range_moved st); try reflexivity; cbn; lia.
  - (* next *)
    cbn in Hav |- *. rewrite !String.eqb_refl. cbn.
    apply andb_true_iff in Hav. destruct Hav as [Hshown Hlast].
    apply negb_true_iff, Z.eqb_neq in Hlast.
    destruct (paginationShown_page st Hshown Hone) as [_ Hle].
    apply (page_in_range_moved st); try reflexivity; cbn; lia.
  - (* page input *)
    cbn. rewrite !String.eqb_refl. cbn.
    apply (page_in_range_moved st); try reflexivity; assumption.
  - (* page jump *)
    cbn in Hav.
    destruct (paginationShown_page st Hav Hone) as [_ Hle].
    destruct (handlePageInputSubmit_keeps (viewTotalPages toLowerCase games st) st)
      as [Ht [Hq Hs]].
    rewrite Hq, Hs, !String.eqb_refl. cbn.
    apply (page_in_range_moved st); try assumption.
    + unfold handlePageInputSubmit.
      destruct (parseInt10 (pageInputValue st)) as [n|]; [|assumption].
      destruct (Z.geb_spec n 1); cbn; [|assumption].
      destruct (Z.leb_spec n (viewTotalPages toLowerCase games st)); cbn; lia.
    + intros _. unfold handlePageInputSubmit.
      destruct (parseInt10 (pageInputValue st)) as [n|]; [|assumption].
      destruct (Z.geb_spec n 1); cbn; [|assumption].
      destruct (Z.leb_spec n (viewTotalPages toLowerCase games st)); cbn; lia.
Qed.

Lemma reachable_page_in_range (st : State) :
  reachable toLowerCase games st -> page_in_range toLowerCase games st.
Proof.
  induction 1 as [|st ev st' _ IH Hstep].
  - now apply page_in_range_first.
  - exact (step_page_in_range st st' ev IH Hstep).
Qed.

(** After a handler, before any effect, the page number is positive and
    within the page count of the state the handler started from. *)
Lemma handle_page_bound (st : State) (ev : Event) :
  page_in_range toLowerCase games st ->
  available toLowerCase games st ev = true ->
  1 <= currentPage (handle toLowerCase games st ev) /\
  (filteredGames toLowerCase games st <> [] ->
   currentPage (handle toLowerCase games st ev)
   <= viewTotalPages toLowerCase games st).
Proof.
  intros [Hone Hmax] Hav.
  destruct ev as [v|tag| |v|v| |pageNumber| |v| ];
    try (split; assumption); cbn [available] in Hav;
    cbn [handle currentPage setCurrentPage].
  - apply andb_true_iff in Hav. destruct Hav as [Hshown Hfirst].
    apply negb_true_iff, Z.eqb_neq in Hfirst.
    destruct (paginationShown_page st Hshown Hone) as [_ Hle]. lia.
  - apply andb_true_iff in Hav. destruct Hav as [Hshown Hnum].
    destruct (paginationShown_page st Hshown Hone) as [Hne Hle].
    apply getPageNumbers_range in Hnum; lia.
  - apply andb_true_iff in Hav. destruct Hav as [Hshown Hlast].
    apply negb_true_iff, Z.eqb_neq in Hlast.
    destruct (paginationShown_page st Hshown Hone) as [_ Hle]. lia.
  - destruct (paginationShown_page st Hav Hone) as [_ Hle].
    unfold handlePageInputSubmit.
    destruct (parseInt10 (pageInputValue st)) as [n|]; [|split; assumption].
    destruct (Z.geb_spec n 1); cbn [andb]; [|split; assumption].
    destruct (Z.leb_spec n (viewTotalPages toLowerCase games st));
      cbn [currentPage setCurrentPage setPageInputValue]; lia.
Qed.

Lemma rendered_page_positive (st : State) :
  rendered toLowerCase games st -> 1 <= currentPage st.
Proof.
  intros [st0 Hreach | st0 ev Hreach Hav].
  - apply (reachable_page_in_range st0 Hreach).
  - apply (handle_page_bound st0 ev (reachable_page_in_range st0 Hreach) Hav).
Qed.


End Interaction.

(** ** C8: the tag list *)

Lemma distinct_from_spec (seen l : list string) :
  NoDup (distinct_from seen l) /\
  forall x, In x (distinct_from seen l) -> ~ In x seen.
Proof.
  revert seen; induction l as [|a l IH]; intros seen; simpl.
  - split; [constructor | tauto].
  - destruct (existsb (String.eqb a) seen) eqn:E; [apply IH|].
    destruct (IH (a :: seen)) as [Hnd Hout]. split.
    + constructor; [|assumption]. intros Ha. apply (Hout a Ha). now left.
    + intros x [<- | Hx].
      * intros Hin.
        assert (existsb (String.eqb a) seen = true)
          by (apply existsb_exists; exists a; split; [assumption | apply String.eqb_refl]).
        congruence.
      * intros Hin. apply (Hout x Hx). now right.
Qed.

Lemma own_property_absent (o : JSObject) (key : string) :
  ~ In key (map fst o) -> own_property o key = None.
Proof.
  induction o as [|[k v] o IH]; simpl; [reflexivity|]. intros H.
  destruct (String.eqb_spec k key); [tauto | apply IH; tauto].
Qed.

Lemma set_own_absent (o : JSObject) (key : string) (v : JSValue) :
  ~ In key (map fst o) -> set_own o key v = (o ++ [(key, v)])%list.
Proof.
  induction o as [|[k w] o IH]; simpl; [reflexivity|]. intros H.
  destruct (String.eqb_spec k key); [tauto | rewrite IH; tauto].
Qed.

Lemma count_distinct (l : list string) (acc : JSObject) :
  NoDup l -> (forall x, In x l -> ~ In x (map fst acc)) ->
  fold_left
    (fun acc val => obj_set acc val (count_up_from (obj_get acc val)))
    l acc
  = (acc ++ map first_count (filter not_proto l))%list.
Proof.
  revert acc; induction l as [|a l IH]; intros acc Hnd Hout; simpl.
  - now rewrite app_nil_r.
  - inversion Hnd as [|? ? Ha Hnd']; subst.
    assert (Hacc : ~ In a (map fst acc)) by (apply Hout; now left).
    unfold obj_set, obj_get, not_proto.
    rewrite (own_property_absent acc a Hacc).
    destruct (String.eqb_spec a "__proto__") as [Ep | Ep]; cbn [negb].
    + apply IH; [assumption|]. intros x Hx. apply Hout. now right.
    + rewrite (set_own_absent acc a _ Hacc).
      rewrite IH; [|assumption|].
      * rewrite <- app_assoc. cbn [map app]. unfold first_count at 2.
        now destruct (is_inherited a).
      * intros x Hx. rewrite map_app, in_app_iff. simpl.
        intros [Hin | [<- | []]]; [|contradiction].
        apply (Hout x); [now right | assumption].
Qed.

Section TagFacts.

Variable toLowerCase : string -> string.

Lemma allGenres_NoDup (games : list IGame) : NoDup (allGenres toLowerCase games).
Proof. unfold allGenres, Set_to_array. apply NoDup_filter, distinct_from_spec. Qed.

(** [genres] holds each tag once, so [frequencyMap] holds the first count
    of each genre but [__proto__]: the number 1, or a string for a genre
    that names an inherited member. *)
Lemma frequencyMap_entries (games : list IGame) :
  frequencyMap toLowerCase games
  = map first_count (filter not_proto (allGenres toLowerCase games)).
Proof.
  unfold frequencyMap. rewrite count_distinct; [reflexivity | apply allGenres_NoDup|].
  intros x _ [].
Qed.

End TagFacts.

(** C8. On three items of genres Action, RPG, RPG the tag list is
    action, rpg: the tag of one item comes before the tag of two. Both
    counts of [frequencyMap] are 1, as [genres] holds each tag once. *)
Theorem tags_not_by_frequency :
  tags ascii_toLowerCase sampleGames = ["action"; "rpg"] /\
  frequencyMap ascii_toLowerCase sampleGames
  = [("action", JNumber 1); ("rpg", JNumber 1)] /\
  tag_occurrences ascii_toLowerCase sampleGames "action" = 1%nat /\
  tag_occurrences ascii_toLowerCase sampleGames "rpg" = 2%nat /\
  ~ (forall t1 t2,
        before t1 t2 (tags ascii_toLowerCase sampleGames) ->
        (tag_occurrences ascii_toLowerCase sampleGames t2
         <= tag_occurrences ascii_toLowerCase sampleGames t1)%nat).
Proof.
  assert (Ht : tags ascii_toLowerCase sampleGames = ["action"; "rpg"])
    by (vm_compute; reflexivity).
  repeat split; try (vm_compute; reflexivity).
  intros H. specialize (H "action" "rpg"). rewrite Ht in H.
  assert (Hb : before "action" "rpg" ["action"; "rpg"]) by (now exists [], [], []).
  apply H in Hb. vm_compute in Hb. lia.
Qed.

(** ** Instances on the sample data *)

(** With the tag "rpg" selected and "be" searched, Beta is shown. *)
Lemma filteredGames_iff_witness :
  In (mkGame "Beta" "RPG" 5 "beta.jpg" "https://example.org/beta")
     (filteredGames ascii_toLowerCase sampleGames
        (mkState "comments-desc" 1 ["rpg"] "be" "" "")).
Proof.
  apply (proj2 (filteredGames_iff ascii_toLowerCase sampleGames
                  (mkState "comments-desc" 1 ["rpg"] "be" "" "")
                  (mkGame "Beta" "RPG" 5 "beta.jpg" "https://example.org/beta"))).
  split; [right; left; reflexivity|]. split.
  - right. intros tag [<- | []]. exists "", "". reflexivity.
  - right. exists "", "ta". reflexivity.
Defined.

(** Page 2 of thirty items is items 12 to 23. *)
Lemma pagination_slice_witness :
  1 <= 2 /\
  currentGames thirtyGames 2
  = firstn 12 (skipn (Z.to_nat ((2 - 1) * 12)) thirtyGames).
Proof.
  split; [lia|].
  exact (proj1 (proj2 (pagination_slice thirtyGames 2 ltac:(lia)))).
Defined.

(** The render between a handler and the effect that follows it: on page 3
    of three, a search that keeps one item leaves, until the effect has
    run, page 3 of one. The interaction as a whole ends on page 1. *)
Remark page_before_reset_effect :
  let st := setCurrentPage 3 initialState in
  let mid := handle ascii_toLowerCase thirtyGames st (SearchChange "first") in
  reachable ascii_toLowerCase thirtyGames st /\
  filteredGames ascii_toLowerCase thirtyGames mid <> [] /\
  viewTotalPages ascii_toLowerCase thirtyGames mid = 1 /\
  currentPage mid = 3 /\
  step ascii_toLowerCase thirtyGames st (SearchChange "first")
  = Some (setCurrentPage 1 mid).
Proof.
  cbv zeta. split; [|split; [|split; [|split]]].
  - apply (reachable_step _ _ (setCurrentPage 2 initialState) NextClick).
    + apply (reachable_step _ _ initialState NextClick).
      * apply reachable_initial.
      * vm_compute. reflexivity.
    + vm_compute. reflexivity.
  - vm_compute. discriminate.
  - vm_compute. reflexivity.
  - reflexivity.
  - vm_compute. reflexivity.
Qed.



(** Genres that name members of [Object.prototype]: "constructor" is
    counted as a string and listed, "__proto__" gets no entry and is no
    tag. *)
Example tags_with_inherited_names :
  frequencyMap ascii_toLowerCase prototypeGames
  = [("action", JNumber 1); ("constructor", JText "constructor" 1);
     ("rpg", JNumber 1)] /\
  tags ascii_toLowerCase prototypeGames = ["action"; "constructor"; "rpg"].
Proof. split; vm_compute; reflexivity. Qed.



(** Beta (5 comments) precedes Gamma (1 comment) in the descending order,
    so Gamma precedes Beta in the ascending one. *)
Lemma sort_directions_witness :
  before (mkGame "Gamma" "RPG" 1 "gamma.jpg" "https://example.org/gamma")
         (mkGame "Beta" "RPG" 5 "beta.jpg" "https://example.org/beta")
         (sortedGames "comments-asc" sampleGames).
Proof.
  apply (proj1 (proj1 (sort_directions sampleGames)
                  (mkGame "Beta" "RPG" 5 "beta.jpg" "https://example.org/beta")
                  (mkGame "Gamma" "RPG" 1 "gamma.jpg" "https://example.org/gamma")
                  ltac:(cbn; lia))).
  exists [], [mkGame "Alpha" "Action" 3 "alpha.jpg" "https://example.org/alpha"], [].
  reflexivity.
Defined.

(** Four pages: 1, 2, 3, 4. *)
Lemma getPageNumbers_display_witness :
  4 <= 5 /\ getPageNumbers 4 3 = [Num 1; Num 2; Num 3; Num 4].
Proof.
  split; [lia|].
  exact (proj1 (proj2 getPageNumbers_display 4 3 ltac:(lia))).
Defined.

(** Toggling a selected tag removes it. *)
Lemma toggleTag_round_trip_witness :
  ~ In "rpg" (toggleTag "rpg" ["action"; "rpg"]).
Proof.
  apply (proj2 (proj2 (toggleTag_round_trip "rpg" ["action"; "rpg"]))).
  right. left. reflexivity.
Defined.

(** Page 4 of thirty items is empty. *)
Lemma currentGames_total_witness :
  currentGames thirtyGames 4 = [].
Proof.
  apply (proj2 (currentGames_total thirtyGames 4)). cbn. lia.
Defined.

(** * Further properties of the pipeline *)

(** ** Pages of a list *)

Section Pages.

Context {A : Type}.

Lemma slice_incl (l : list A) (start stop : Z) : incl (slice l start stop) l.
Proof.
  intros x Hx. unfold slice in Hx.
  apply In_nth_error in Hx. destruct Hx as [i Hi].
  rewrite nth_error_firstn in Hi. destruct (i <? _)%nat; [|discriminate].
  rewrite nth_error_skipn in Hi. now apply nth_error_In in Hi.
Qed.

(** Page [S k], counted from 0, as a part of the list. *)
Lemma currentGames_chunk (l : list A) (k : nat) :
  currentGames l (Z.of_nat (S k)) = firstn 12 (skipn (12 * k) l).
Proof.
  apply nth_error_ext. intros i.
  unfold currentGames, indexOfFirstGame, indexOfLastGame, gamesPerPage.
  rewrite nth_error_slice by lia.
  rewrite nth_error_firstn, nth_error_skipn.
  replace (Z.of_nat (S k) * 12 - (Z.of_nat (S k) * 12 - 12)) with 12 by lia.
  replace (Z.to_nat (Z.of_nat (S k) * 12 - 12)) with (12 * k)%nat by lia.
  destruct (Z.ltb_spec (Z.of_nat i) 12); destruct (Nat.ltb_spec i 12);
    try lia; reflexivity.
Qed.

Lemma firstn_chunks (l : list A) (m : nat) :
  List.concat (map (fun k => firstn 12 (skipn (12 * k) l)) (seq 0 m))
  = firstn (12 * m) l.
Proof.
  induction m as [|m IH]; [reflexivity|].
  rewrite seq_S, map_app, concat_app, IH. cbn [map List.concat plus].
  rewrite app_nil_r.
  rewrite <- (firstn_skipn (12 * m) (firstn (12 * S m) l)).
  rewrite firstn_firstn, skipn_firstn_comm.
  replace (Nat.min (12 * m) (12 * S m)) with (12 * m)%nat by lia.
  replace (12 * S m - 12 * m)%nat with 12%nat by lia. reflexivity.
Qed.

(** The pages 1, ..., totalPages, one after the other, are the list: every
    item is on exactly one page, in the order of the list. *)
Theorem pages_cover_list (l : list A) :
  List.concat (map (fun p => currentGames l (Z.of_nat p))
                   (seq 1 (Z.to_nat (totalPages l))))
  = l.
Proof.
  rewrite <- seq_shift, map_map.
  rewrite (map_ext _ (fun k => firstn 12 (skipn (12 * k) l)))
    by (intros k; apply currentGames_chunk).
  rewrite firstn_chunks. apply firstn_all2.
  pose proof (totalPages_bounds l). lia.
Qed.

Lemma currentGames_length_formula (l : list A) (page : Z) :
  1 <= page ->
  Z.of_nat (List.length (currentGames l page))
  = Z.max 0 (Z.min 12 (Z.of_nat (List.length l) - 12 * (page - 1))).
Proof.
  intros Hpage.
  unfold currentGames, indexOfFirstGame, indexOfLastGame, gamesPerPage, slice.
  rewrite length_firstn, length_skipn.
  destruct (Z.ltb_spec (page * 12 - 12) 0); destruct (Z.ltb_spec (page * 12) 0); lia.
Qed.

Lemma currentGames_nonempty_iff (l : list A) (page : Z) :
  1 <= page -> (currentGames l page <> [] <-> page <= totalPages l).
Proof.
  intros Hpage. pose proof (currentGames_length_formula l page Hpage) as Hlen.
  pose proof (totalPages_bounds l) as Hb.
  rewrite <- length_zero_iff_nil. split; intros H; lia.
Qed.

(** The number of items of a page: 12 on every page before the last one,
    the remainder on the last; a page from 1 on holds an item exactly when
    it is at most [totalPages]. *)
Theorem page_length (l : list A) (page : Z) :
  1 <= page ->
  Z.of_nat (List.length (currentGames l page))
  = Z.max 0 (Z.min 12 (Z.of_nat (List.length l) - 12 * (page - 1))) /\
  (page < totalPages l -> List.length (currentGames l page) = 12%nat) /\
  (currentGames l page <> [] <-> page <= totalPages l).
Proof.
  intros Hpage. pose proof (currentGames_length_formula l page Hpage) as Hlen.
  pose proof (totalPages_bounds l) as Hb.
  split; [exact Hlen|]. split; [lia | now apply currentGames_nonempty_iff].
Qed.

End Pages.

(** ** Sort order and pages *)

Lemma nth_error_before {A : Type} (l : list A) (i j : nat) (x y : A) :
  nth_error l i = Some x -> nth_error l j = Some y -> (i < j)%nat ->
  before x y l.
Proof.
  intros Hi Hj Hlt.
  destruct (nth_error_split l i Hi) as [l1 [l2 [Hl Hlen]]]. subst l.
  rewrite nth_error_app2 in Hj by lia.
  replace (j - List.length l1)%nat with (S (j - List.length l1 - 1)) in Hj by lia.
  cbn [nth_error] in Hj.
  destruct (nth_error_split l2 _ Hj) as [l3 [l4 [Hl2 _]]]. subst l2.
  now exists l1, l3, l4.
Qed.

Lemma In_currentGames {A : Type} (l : list A) (page : Z) (x : A) :
  1 <= page -> In x (currentGames l page) ->
  exists i : nat,
    nth_error l i = Some x /\ 12 * (page - 1) <= Z.of_nat i < 12 * page.
Proof.
  intros Hpage Hx. apply In_nth_error in Hx. destruct Hx as [i Hi].
  unfold currentGames, indexOfFirstGame, indexOfLastGame, gamesPerPage in Hi.
  rewrite nth_error_slice in Hi by lia.
  destruct (Z.ltb_spec (Z.of_nat i) (page * 12 - (page * 12 - 12))); [|discriminate].
  exists (Z.to_nat (page * 12 - 12) + i)%nat. split; [assumption | lia].
Qed.

(** The comparator of any other value of [sortBy] is 0 (line 75). *)
Lemma Array_sort_zero {A : Type} (cmp : A -> A -> Z) (l : list A) :
  (forall a b, cmp a b = 0) -> Array_sort cmp l = l.
Proof.
  intros H0. induction l as [|x l IH]; [reflexivity|].
  cbn [Array_sort]. rewrite IH. destruct l as [|y l]; [reflexivity|].
  cbn [insert_sorted]. now rewrite H0.
Qed.

(** With a value of [sortBy] other than the two of the selector, the
    filtered set is shown in the order of the data. *)
Theorem sortedGames_other_order (order : string) (filtered : list IGame) :
  order <> "comments-asc" -> order <> "comments-desc" ->
  sortedGames order filtered = filtered.
Proof.
  intros Hasc Hdesc. apply Array_sort_zero. intros a b. unfold compareGames.
  destruct (String.eqb_spec order "comments-asc"); [contradiction|].
  destruct (String.eqb_spec order "comments-desc"); [contradiction|]. reflexivity.
Qed.

(** An item of an earlier page has at least as many comments as an item of
    a later page under "comments-desc", and at most as many under
    "comments-asc". *)
Theorem pages_in_sort_order (filtered : list IGame) (p q : Z) (x y : IGame) :
  1 <= p < q ->
  (In x (currentGames (sortedGames "comments-desc" filtered) p) ->
   In y (currentGames (sortedGames "comments-desc" filtered) q) ->
   comments y <= comments x) /\
  (In x (currentGames (sortedGames "comments-asc" filtered) p) ->
   In y (currentGames (sortedGames "comments-asc" filtered) q) ->
   comments x <= comments y).
Proof.
  intros Hpq. split; intros Hx Hy.
  - destruct (In_currentGames _ p x ltac:(lia) Hx) as [i [Hi Hir]].
    destruct (In_currentGames _ q y ltac:(lia) Hy) as [j [Hj Hjr]].
    pose proof (nth_error_before _ i j x y Hi Hj ltac:(lia)) as Hb.
    pose proof (Array_sort_ordered _ _ compareGames_desc filtered) as Hs.
    apply (sorted_before _ x y _ Hs) in Hb. lia.
  - destruct (In_currentGames _ p x ltac:(lia) Hx) as [i [Hi Hir]].
    destruct (In_currentGames _ q y ltac:(lia) Hy) as [j [Hj Hjr]].
    pose proof (nth_error_before _ i j x y Hi Hj ltac:(lia)) as Hb.
    pose proof (Array_sort_ordered _ _ compareGames_asc filtered) as Hs.
    now apply (sorted_before _ x y _ Hs) in Hb.
Qed.

(** ** The filter and the visible page *)

Section FilterMore.

Variable toLowerCase : string -> string.

(** Every item of the visible page is an item of the filtered set, hence
    of the data: sorting and slicing add nothing. *)
Theorem viewPage_filtered (games : list IGame) (st : State) :
  incl (viewPage toLowerCase games st) (filteredGames toLowerCase games st) /\
  incl (viewPage toLowerCase games st) games.
Proof.
  assert (H : incl (viewPage toLowerCase games st)
                   (filteredGames toLowerCase games st)).
  { intros g Hg. unfold viewPage, currentGames in Hg. apply slice_incl in Hg.
    unfold viewGames in Hg.
    exact (Permutation_in _ (sortedGames_perm _ _) Hg). }
  split; [exact H|].
  intros g Hg. apply H in Hg. unfold filteredGames in Hg.
  now apply filter_In in Hg.
Qed.

(** Selecting more tags never brings in an item: if every tag selected in
    [st] is selected in [st'] and the search text is the same, the
    filtered set of [st'] is within that of [st]. *)
Theorem filteredGames_more_tags (games : list IGame) (st st' : State) :
  incl (selectedTags st) (selectedTags st') ->
  searchQuery st' = searchQuery st ->
  incl (filteredGames toLowerCase games st') (filteredGames toLowerCase games st).
Proof.
  intros Hincl Hq g. unfold filteredGames. rewrite !filter_In, Hq.
  intros [Hg Hm]. split; [assumption|].
  unfold matches in *. apply andb_true_iff in Hm. destruct Hm as [Ht Hs].
  apply andb_true_iff. split; [|assumption].
  apply orb_true_iff. right. apply forallb_forall. intros tag Htag.
  apply Hincl in Htag. apply orb_true_iff in Ht. destruct Ht as [Ht | Ht].
  - apply Nat.eqb_eq, length_zero_iff_nil in Ht. rewrite Ht in Htag. destruct Htag.
  - rewrite forallb_forall in Ht. now apply Ht.
Qed.

End FilterMore.

(** ** Genre fields and the tag list *)

Lemma append_nil_r (s : string) : s ++ "" = s.
Proof. induction s as [|c s IH]; simpl; [reflexivity | now rewrite IH]. Qed.

Lemma append_assoc (s1 s2 s3 : string) : (s1 ++ s2) ++ s3 = s1 ++ s2 ++ s3.
Proof. induction s1 as [|c s1 IH]; simpl; [reflexivity | now rewrite IH]. Qed.

Lemma string_of_list_ascii_app (l1 l2 : list ascii) :
  string_of_list_ascii (l1 ++ l2)
  = string_of_list_ascii l1 ++ string_of_list_ascii l2.
Proof. induction l1 as [|c l1 IH]; simpl; [reflexivity | now rewrite IH]. Qed.

Lemma split_from_not_nil (cur : list ascii) (s : string) : split_from cur s <> [].
Proof.
  revert cur. induction s as [|c s IH]; intros cur; [discriminate|].
  cbn [split_from]. destruct s as [|d s']; [discriminate|].
  destruct (Ascii.eqb c "," && Ascii.eqb d " ")%bool; [discriminate | apply IH].
Qed.

Lemma concat_cons (sep x : string) (l : list string) :
  l <> [] -> String.concat sep (x :: l) = x ++ sep ++ String.concat sep l.
Proof. destruct l; [contradiction | reflexivity]. Qed.

Lemma split_from_step (c d : ascii) (s : string) (cur : list ascii) :
  split_from cur (String c (String d s))
  = if (Ascii.eqb c "," && Ascii.eqb d " ")%bool
    then string_of_list_ascii (rev cur) :: split_from [] s
    else split_from (c :: cur) (String d s).
Proof. reflexivity. Qed.

Lemma split_from_join (s : string) :
  (forall cur, String.concat ", " (split_from cur s)
               = string_of_list_ascii (rev cur) ++ s) /\
  (forall c cur, String.concat ", " (split_from cur (String c s))
                 = string_of_list_ascii (rev cur) ++ String c s).
Proof.
  induction s as [|d s [IH1 IH2]].
  - split.
    + intros cur. cbn [split_from String.concat]. now rewrite append_nil_r.
    + intros c cur. cbn [split_from String.concat rev].
      now rewrite string_of_list_ascii_app.
  - split; [exact (IH2 d)|]. intros c cur. rewrite split_from_step.
    destruct (Ascii.eqb_spec c ","); [destruct (Ascii.eqb_spec d " ")|]; cbn [andb].
    + subst c d. rewrite concat_cons by apply split_from_not_nil.
      rewrite IH1. reflexivity.
    + rewrite IH2. cbn [rev]. rewrite string_of_list_ascii_app, append_assoc.
      reflexivity.
    + rewrite IH2. cbn [rev]. rewrite string_of_list_ascii_app, append_assoc.
      reflexivity.
Qed.

Lemma split_comma_space_join (s : string) :
  String.concat ", " (split_comma_space s) = s.
Proof. unfold split_comma_space. now rewrite (proj1 (split_from_join s)). Qed.

(** Joining the pieces of a genre field with ", " gives the field back
    ([s.split(", ").join(", ")] is [s]), and a field always has at least
    one piece. *)
Theorem split_join (s : string) :
  String.concat ", " (split_comma_space s) = s /\
  split_comma_space s <> [].
Proof. split; [apply split_comma_space_join | apply split_from_not_nil]. Qed.

Lemma In_concat_substring (sep p : string) (l : list string) :
  In p l -> substring_of p (String.concat sep l).
Proof.
  induction l as [|x l IH]; [contradiction|]. intros Hp.
  destruct l as [|y l].
  - destruct Hp as [-> | []]. exists "", "". cbn. now rewrite append_nil_r.
  - rewrite concat_cons by discriminate. destruct Hp as [-> | Hp].
    + now exists "", (sep ++ String.concat sep (y :: l)).
    + destruct (IH Hp) as [pre [post E]]. rewrite E.
      exists (x ++ sep ++ pre), post. now rewrite !append_assoc.
Qed.

(** A piece of a genre field occurs in the field. *)
Lemma split_piece_substring (p s : string) :
  In p (split_comma_space s) -> substring_of p s.
Proof.
  intros Hp. rewrite <- (split_comma_space_join s) at 1.
  now apply In_concat_substring.
Qed.

Lemma slice_all {A : Type} (l : list A) : slice l 0 (Z.of_nat (List.length l)) = l.
Proof.
  unfold slice.
  destruct (Z.ltb_spec 0 0); [lia|].
  destruct (Z.ltb_spec (Z.of_nat (List.length l)) 0); [lia|].
  replace (Z.min 0 (Z.of_nat (List.length l))) with 0 by lia.
  replace (Z.min (Z.of_nat (List.length l)) (Z.of_nat (List.length l)))
    with (Z.of_nat (List.length l)) by lia.
  rewrite Z.sub_0_r, Nat2Z.id. cbn [Z.to_nat skipn]. apply firstn_all.
Qed.

Lemma filter_split_perm {A : Type} (f : A -> bool) (l : list A) :
  Permutation (filter f l ++ filter (fun x => negb (f x)) l) l.
Proof.
  induction l as [|x l IH]; [constructor|]. cbn [filter].
  destruct (f x); cbn [negb app].
  - now constructor.
  - rewrite <- Permutation_middle. now constructor.
Qed.

Lemma filter_none {A : Type} (f : A -> bool) (l : list A) :
  (forall x, In x l -> f x = false) -> filter f l = [].
Proof.
  induction l as [|x l IH]; intros H; [reflexivity|]. cbn [filter].
  rewrite (H x) by now left. apply IH. intros y Hy. apply H. now right.
Qed.

Lemma Object_entries_perm (o : JSObject) : Permutation (Object_entries o) o.
Proof.
  unfold Object_entries. rewrite Array_sort_perm. apply filter_split_perm.
Qed.

(** A comparator that is 0 on the elements of an array leaves it as it is. *)
Lemma Array_sort_flat {A : Type} (cmp : A -> A -> Z) (l : list A) :
  (forall a b, In a l -> In b l -> cmp a b = 0) -> Array_sort cmp l = l.
Proof.
  induction l as [|x l IH]; intros H0; [reflexivity|].
  cbn [Array_sort]. rewrite IH by (intros a b Ha Hb; apply H0; now right).
  destruct l as [|y l]; [reflexivity|].
  cbn [insert_sorted]. rewrite H0; [reflexivity | now left | right; now left].
Qed.

Lemma distinct_from_In (seen l : list string) (x : string) :
  In x (distinct_from seen l) <-> In x l /\ ~ In x seen.
Proof.
  revert seen; induction l as [|a l IH]; intros seen; cbn [distinct_from].
  - simpl. tauto.
  - destruct (existsb (String.eqb a) seen) eqn:E.
    + rewrite IH. apply existsb_exists in E. destruct E as [y [Hy Ey]].
      apply String.eqb_eq in Ey. subst y. simpl.
      split; [tauto|]. intros [[<- | Hx] Hout]; [contradiction | tauto].
    + simpl. rewrite IH. simpl.
      assert (Ha : ~ In a seen).
      { intros Ha. assert (existsb (String.eqb a) seen = true)
          by (apply existsb_exists; exists a; split;
              [assumption | apply String.eqb_refl]).
        congruence. }
      destruct (string_dec a x) as [<- | Hne]; [tauto|]. tauto.
Qed.

Section TagList.

Variable toLowerCase : string -> string.

Lemma allGenres_In (games : list IGame) (t : string) :
  In t (allGenres toLowerCase games) <->
  t <> "2014" /\ t <> "" /\
  exists game, In game games /\
               In t (split_comma_space (toLowerCase (genres game))).
Proof.
  unfold allGenres, Set_to_array.
  rewrite filter_In, distinct_from_In, in_concat, andb_true_iff, !negb_true_iff.
  rewrite !String.eqb_neq. split.
  - intros [[[pieces [Hp Ht]] _] [H1 H2]]. repeat split; try assumption.
    apply in_map_iff in Hp. destruct Hp as [game [<- Hg]]. now exists game.
  - intros [H1 [H2 [game [Hg Ht]]]]. repeat split; try assumption; [|tauto].
    exists (split_comma_space (toLowerCase (genres game))). split; [|assumption].
    apply in_map_iff. now exists game.
Qed.

Lemma first_count_difference (t t' : string) :
  count_difference (first_count t) (first_count t') = 0.
Proof.
  unfold count_difference, first_count. cbn [snd].
  destruct (is_inherited t), (is_inherited t'); reflexivity.
Qed.

(** No two counts differing, the sort by count changes nothing: the tag
    list is the keys of [frequencyMap] as [Object.entries] lists them. *)
Lemma tags_entries (games : list IGame) :
  tags toLowerCase games
  = map fst (Object_entries (frequencyMap toLowerCase games)).
Proof.
  unfold tags. rewrite slice_all. unfold sortedByFrequency.
  rewrite Array_sort_flat; [reflexivity|].
  assert (Hfirst : forall e,
             In e (Object_entries (frequencyMap toLowerCase games)) ->
             exists t, e = first_count t).
  { intros e He. apply (Permutation_in _ (Object_entries_perm _)) in He.
    rewrite frequencyMap_entries in He. apply in_map_iff in He.
    destruct He as [t [<- _]]. now exists t. }
  intros a b Ha Hb. destruct (Hfirst a Ha) as [t ->].
  destruct (Hfirst b Hb) as [t' ->]. apply first_count_difference.
Qed.

Lemma map_fst_first_count (l : list string) : map fst (map first_count l) = l.
Proof. rewrite map_map. cbn [first_count fst]. apply map_id. Qed.

Lemma tags_perm (games : list IGame) :
  Permutation (tags toLowerCase games)
              (filter not_proto (allGenres toLowerCase games)).
Proof.
  rewrite tags_entries, Object_entries_perm, frequencyMap_entries.
  now rewrite map_fst_first_count.
Qed.

Lemma tags_In (games : list IGame) (t : string) :
  In t (tags toLowerCase games) <->
  In t (allGenres toLowerCase games) /\ t <> "__proto__".
Proof.
  assert (Hf : In t (filter not_proto (allGenres toLowerCase games)) <->
               In t (allGenres toLowerCase games) /\ t <> "__proto__").
  { rewrite filter_In. unfold not_proto. rewrite negb_true_iff, String.eqb_neq.
    reflexivity. }
  rewrite <- Hf. split; apply Permutation_in;
    [apply tags_perm | apply Permutation_sym, tags_perm].
Qed.


(** The tag list holds no tag twice, and neither "2014" nor the empty
    string. *)
Theorem tags_distinct (games : list IGame) :
  NoDup (tags toLowerCase games) /\
  ~ In "2014" (tags toLowerCase games) /\
  ~ In "" (tags toLowerCase games).
Proof.
  split; [|split].
  - apply (Permutation_NoDup (Permutation_sym (tags_perm games))).
    apply NoDup_filter, allGenres_NoDup.
  - intros H. apply tags_In in H. destruct H as [H _].
    apply allGenres_In in H. tauto.
  - intros H. apply tags_In in H. destruct H as [H _].
    apply allGenres_In in H. tauto.
Qed.

(** The tags are the pieces of the lower-cased genre fields of the data,
    "2014", the empty piece and "__proto__" left out. *)
Theorem tags_members (games : list IGame) (t : string) :
  In t (tags toLowerCase games) <->
  t <> "2014" /\ t <> "" /\ t <> "__proto__" /\
  exists game, In game games /\
               In t (split_comma_space (toLowerCase (genres game))).
Proof. rewrite tags_In, allGenres_In. tauto. Qed.

(** When no genre is the numeral of an array index, the tag list is the
    list of distinct genres other than "__proto__", in the order in which
    they first occur in the data. *)
Theorem tags_first_occurrence (games : list IGame) :
  (forall t, In t (allGenres toLowerCase games) -> array_index t = None) ->
  tags toLowerCase games = filter not_proto (allGenres toLowerCase games).
Proof.
  intros Hidx. rewrite tags_entries, frequencyMap_entries. unfold Object_entries.
  assert (Hnone : forall e,
             In e (map first_count
                     (filter not_proto (allGenres toLowerCase games))) ->
             is_index_entry e = false).
  { intros e He. apply in_map_iff in He. destruct He as [t [<- Ht]].
    apply filter_In in Ht. destruct Ht as [Ht _].
    unfold is_index_entry, first_count. cbn [fst]. now rewrite (Hidx t Ht). }
  rewrite filter_none by exact Hnone.
  rewrite forallb_filter_id
    by (apply forallb_forall; intros e He; now rewrite (Hnone e He)).
  cbn [Array_sort app]. apply map_fst_first_count.
Qed.

(** A tag of the list, selected alone with no search text, keeps every
    item that lists it: the result is not empty. *)
Theorem tag_alone_matches (games : list IGame) (tag : string) (st : State) :
  In tag (tags toLowerCase games) ->
  selectedTags st = [tag] -> searchQuery st = "" ->
  (forall game, In game games ->
                In tag (split_comma_space (toLowerCase (genres game))) ->
                In game (filteredGames toLowerCase games st)) /\
  filteredGames toLowerCase games st <> [].
Proof.
  intros Htag Hsel Hq.
  assert (Hall : forall game, In game games ->
                   In tag (split_comma_space (toLowerCase (genres game))) ->
                   In game (filteredGames toLowerCase games st)).
  { intros game Hg Hp. unfold filteredGames. rewrite Hsel, Hq.
    apply filter_In. split; [assumption|]. unfold matches. cbn.
    rewrite andb_true_r, andb_true_r. apply includes_iff.
    now apply split_piece_substring. }
  split; [exact Hall|].
  apply tags_In in Htag. destruct Htag as [Htag _].
  apply allGenres_In in Htag. destruct Htag as [_ [_ [game [Hg Hp]]]].
  intros Hnil. specialize (Hall game Hg Hp). rewrite Hnil in Hall. destruct Hall.
Qed.

(** The tags of the sidebar are the tags whose lower-cased text contains
    the lower-cased tag search text, in the order of the tag list. *)
Theorem filteredTags_iff (games : list IGame) (st : State) (tag : string) :
  In tag (filteredTags toLowerCase games st) <->
  In tag (tags toLowerCase games) /\
  substring_of (toLowerCase (tagSearchQuery st)) (toLowerCase tag).
Proof. unfold filteredTags. now rewrite filter_In, includes_iff. Qed.

End TagList.

(** ** The page-number display list, for every page count *)

(** For more than 5 pages the window has two or three numbers, whatever
    the current page. *)
Lemma page_window_cases (totalPages currentPage : Z) :
  5 < totalPages ->
  2 <= startPage totalPages currentPage /\
  endPage totalPages currentPage <= totalPages - 1 /\
  (endPage totalPages currentPage = startPage totalPages currentPage + 1 \/
   endPage totalPages currentPage = startPage totalPages currentPage + 2).
Proof.
  intros Htp. unfold startPage, endPage, initialStartPage.
  rewrite floor_half_window. unfold maxPagesToShow.
  destruct (Z.ltb_spec
              (Z.min (Z.max (currentPage - 1) 2 + 5 - 3) (totalPages - 1)
               - Z.max (currentPage - 1) 2) (5 - 3)); lia.
Qed.

(** The display list for more than 5 pages, written out. *)
Lemma getPageNumbers_long (totalPages currentPage : Z) :
  5 < totalPages ->
  exists s e,
    2 <= s /\ e <= totalPages - 1 /\
    s = startPage totalPages currentPage /\ e = endPage totalPages currentPage /\
    ((e = s + 1 /\
      getPageNumbers totalPages currentPage
      = Num 1 :: (if s >? 2 then [Ellipsis] else [])
        ++ [Num s; Num (s + 1)]
        ++ (if e <? totalPages - 1 then [Ellipsis] else []) ++ [Num totalPages]) \/
     (e = s + 2 /\
      getPageNumbers totalPages currentPage
      = Num 1 :: (if s >? 2 then [Ellipsis] else [])
        ++ [Num s; Num (s + 1); Num (s + 1 + 1)]
        ++ (if e <? totalPages - 1 then [Ellipsis] else []) ++ [Num totalPages])).
Proof.
  intros Htp. destruct (page_window_cases totalPages currentPage Htp)
    as [Hs [He Hw]].
  exists (startPage totalPages currentPage), (endPage totalPages currentPage).
  repeat (split; [assumption || reflexivity|]).
  unfold getPageNumbers, maxPagesToShow.
  destruct (Z.leb_spec totalPages 5); [lia|]. unfold push_range.
  destruct Hw as [Hw | Hw]; [left | right]; (split; [assumption|]); rewrite Hw.
  - replace (startPage totalPages currentPage + 1
             - startPage totalPages currentPage + 1) with 2 by lia.
    reflexivity.
  - replace (startPage totalPages currentPage + 2
             - startPage totalPages currentPage + 1) with 3 by lia.
    reflexivity.
Qed.

Lemma page_values_In (l : list PageEntry) (p : Z) :
  In p (page_values l) <-> In (Num p) l.
Proof.
  induction l as [|[n|] l IH]; cbn [page_values]; simpl.
  - tauto.
  - rewrite IH. split; intros [H | H]; try tauto; left; congruence.
  - rewrite IH. split; [tauto | intros [H | H]; [discriminate | assumption]].
Qed.

Lemma count_up_increasing (n : nat) (i : Z) :
  StronglySorted Z.lt (page_values (count_up n i)).
Proof.
  revert i; induction n as [|n IH]; intros i; cbn [count_up page_values];
    constructor; [apply IH|].
  apply Forall_forall. intros p Hp. apply page_values_In, count_up_In in Hp. lia.
Qed.

(** The page numbers of the list are increasing, hence distinct, and lie
    between 1 and [totalPages]. *)
Theorem page_values_increasing (totalPages currentPage : Z) :
  StronglySorted Z.lt (page_values (getPageNumbers totalPages currentPage)) /\
  forall p, In (Num p) (getPageNumbers totalPages currentPage) ->
            1 <= p <= totalPages.
Proof.
  destruct (Z.le_gt_cases totalPages 5) as [Hle | Hgt].
  - unfold getPageNumbers, maxPagesToShow.
    destruct (Z.leb_spec totalPages 5); [|lia]. split.
    + apply count_up_increasing.
    + intros p Hp. apply count_up_In in Hp. lia.
  - destruct (getPageNumbers_long totalPages currentPage ltac:(lia))
      as [s [e [Hs [He [_ [_ Hform]]]]]].
    destruct Hform as [[Hw ->] | [Hw ->]];
      destruct (Z.gtb_spec s 2); destruct (Z.ltb_spec e (totalPages - 1));
      cbn [app page_values];
      (split;
       [ repeat (constructor; [|repeat (constructor; try lia)]); constructor
       | intros p Hp; cbn [In] in Hp;
         repeat (destruct Hp as [Hp | Hp]; [try discriminate; inversion Hp; lia|]);
         destruct Hp ]).
Qed.

Lemma count_up_In_iff (n : nat) (i p : Z) :
  In (Num p) (count_up n i) <-> i <= p < i + Z.of_nat n.
Proof.
  split; [apply count_up_In|].
  revert i; induction n as [|n IH]; intros i Hp; [lia|].
  cbn [count_up In]. destruct (Z.eq_dec i p) as [-> | Hne]; [now left|].
  right. apply IH. lia.
Qed.

Lemma getPageNumbers_In_long (totalPages currentPage p : Z) :
  5 < totalPages ->
  p = 1 \/ p = totalPages \/
  startPage totalPages currentPage <= p <= endPage totalPages currentPage ->
  In (Num p) (getPageNumbers totalPages currentPage).
Proof.
  intros Htp Hp. unfold getPageNumbers, maxPagesToShow.
  destruct (Z.leb_spec totalPages 5); [lia|].
  destruct Hp as [-> | [-> | Hp]].
  - now left.
  - apply in_or_app; right. apply in_or_app; right. apply in_or_app; right.
    apply in_or_app; right. now left.
  - apply in_or_app; right. apply in_or_app; right. apply in_or_app; left.
    apply count_up_In_iff. lia.
Qed.

(** On a page between 1 and [totalPages], the list holds the current page
    and the pages next to it. *)
Theorem current_page_shown (totalPages currentPage : Z) :
  1 <= currentPage <= totalPages ->
  In (Num currentPage) (getPageNumbers totalPages currentPage) /\
  (1 <= currentPage - 1 ->
   In (Num (currentPage - 1)) (getPageNumbers totalPages currentPage)) /\
  (currentPage + 1 <= totalPages ->
   In (Num (currentPage + 1)) (getPageNumbers totalPages currentPage)).
Proof.
  intros Hcp. destruct (Z.le_gt_cases totalPages 5) as [Hle | Hgt].
  - unfold getPageNumbers, maxPagesToShow, push_range.
    destruct (Z.leb_spec totalPages 5); [|lia].
    repeat split; intros; apply count_up_In_iff; lia.
  - destruct (page_window_shape totalPages currentPage ltac:(lia) Hcp)
      as [Hs [He [Hmid Hend]]].
    destruct (Z.le_gt_cases (currentPage + 1) (totalPages - 1)) as [Hc | Hc].
    + destruct (Hmid Hc) as [Es Ee].
      repeat split; intros; apply getPageNumbers_In_long; lia.
    + destruct (Hend ltac:(lia)) as [Es Ee].
      repeat split; intros; apply getPageNumbers_In_long; lia.
Qed.

Lemma count_up_length (n : nat) (i : Z) : List.length (count_up n i) = n.
Proof. revert i; induction n as [|n IH]; intros i; simpl; [|rewrite IH]; reflexivity. Qed.

Lemma page_values_count_up_length (n : nat) (i : Z) :
  List.length (page_values (count_up n i)) = n.
Proof. revert i; induction n as [|n IH]; intros i; simpl; [|rewrite IH]; reflexivity. Qed.

Lemma count_up_last (n : nat) (i : Z) (d : PageEntry) :
  last (count_up (S n) i) d = Num (i + Z.of_nat n).
Proof.
  revert i; induction n as [|n IH]; intros i.
  - cbn. f_equal. lia.
  - change (count_up (S (S n)) i) with (Num i :: count_up (S n) (i + 1)).
    change (last (Num i :: count_up (S n) (i + 1)) d)
      with (last (count_up (S n) (i + 1)) d).
    rewrite IH. f_equal. lia.
Qed.

(** With at least one page, the list starts with page 1 and ends with the
    last page; it never has more than 5 numbers and 2 ellipses. *)
Theorem getPageNumbers_ends (totalPages currentPage : Z) :
  1 <= totalPages ->
  hd_error (getPageNumbers totalPages currentPage) = Some (Num 1) /\
  last (getPageNumbers totalPages currentPage) Ellipsis = Num totalPages /\
  (List.length (page_values (getPageNumbers totalPages currentPage)) <= 5)%nat /\
  (List.length (getPageNumbers totalPages currentPage) <= 7)%nat.
Proof.
  intros Htp. destruct (Z.le_gt_cases totalPages 5) as [Hle | Hgt].
  - unfold getPageNumbers, maxPagesToShow, push_range.
    destruct (Z.leb_spec totalPages 5); [|lia].
    replace (totalPages - 1 + 1) with totalPages by lia.
    rewrite page_values_count_up_length, count_up_length.
    destruct (Z.to_nat totalPages) as [|n] eqn:En; [lia|].
    rewrite count_up_last. repeat split; try lia. f_equal. lia.
  - destruct (getPageNumbers_long totalPages currentPage ltac:(lia))
      as [s [e [Hs [He [_ [_ Hform]]]]]].
    destruct Hform as [[Hw ->] | [Hw ->]];
      destruct (s >? 2); destruct (e <? totalPages - 1);
      cbn; repeat split; lia.
Qed.

Lemma count_up_adjacent (n : nat) (i : Z) (l1 l2 : list PageEntry) (a b : Z) :
  count_up n i = (l1 ++ Num a :: Num b :: l2)%list -> b = a + 1.
Proof.
  revert i l1; induction n as [|n IH]; intros i l1 H.
  - destruct l1; discriminate.
  - cbn [count_up] in H. destruct l1 as [|x l1]; cbn [app] in H.
    + inversion H as [[Hi Hrest]]. destruct n; cbn [count_up] in Hrest;
        [discriminate | inversion Hrest; reflexivity].
    + inversion H as [[Hx Hrest]]. exact (IH _ _ Hrest).
Qed.

(** Peels the prefix [l1] of an equation [explicit list = l1 ++ rest]. *)
Ltac peel_prefix :=
  match goal with
  | H : _ = (?l1 ++ _)%list |- _ =>
      destruct l1; cbn [app] in H; inversion H; subst; clear H;
      try lia;
      try (cbn [last hd]; do 2 eexists;
           split; [reflexivity | split; [reflexivity | lia]]);
      try peel_prefix
  end.

(** Two numbers next to each other in the list are consecutive pages, and
    an ellipsis stands between two numbers that are not: the list never
    hides a single missing page without marking it, and marks nothing
    else. *)
Theorem ellipsis_marks_gap (totalPages currentPage : Z) :
  (forall l1 l2 a b,
      getPageNumbers totalPages currentPage = (l1 ++ Num a :: Num b :: l2)%list ->
      b = a + 1) /\
  (forall l1 l2,
      getPageNumbers totalPages currentPage = (l1 ++ Ellipsis :: l2)%list ->
      exists a b,
        last l1 Ellipsis = Num a /\ hd Ellipsis l2 = Num b /\ a + 1 < b).
Proof.
  destruct (Z.le_gt_cases totalPages 5) as [Hle | Hgt].
  - unfold getPageNumbers, maxPagesToShow, push_range.
    destruct (Z.leb_spec totalPages 5); [|lia]. split.
    + intros l1 l2 a b Heq. exact (count_up_adjacent _ _ _ _ _ _ Heq).
    + intros l1 l2 Heq. exfalso.
      apply (count_up_no_ellipsis (Z.to_nat (totalPages - 1 + 1)) 1).
      rewrite Heq. apply in_or_app. right. now left.
  - destruct (getPageNumbers_long totalPages currentPage ltac:(lia))
      as [s [e [Hs [He [_ [_ Hform]]]]]].
    destruct Hform as [[Hw ->] | [Hw ->]];
      destruct (Z.gtb_spec s 2); destruct (Z.ltb_spec e (totalPages - 1));
      cbn [app]; (split; [intros l1 l2 a b Heq | intros l1 l2 Heq]);
      peel_prefix.
Qed.

(** ** The page-jump handler once more *)

(** Submitting the form twice in a row does what submitting it once does. *)
Theorem handlePageInputSubmit_idempotent (totalPages : Z) (st : State) :
  handlePageInputSubmit totalPages (handlePageInputSubmit totalPages st)
  = handlePageInputSubmit totalPages st.
Proof.
  unfold handlePageInputSubmit at 2 3.
  destruct (parseInt10 (pageInputValue st)) as [n|] eqn:E.
  - destruct ((n >=? 1) && (n <=? totalPages))%bool eqn:Hr.
    + unfold handlePageInputSubmit. cbn [pageInputValue setCurrentPage].
      rewrite E, Hr. reflexivity.
    + reflexivity.
  - reflexivity.
Qed.

(** ** Interactions *)

Section Reachable.

Variable toLowerCase : string -> string.
Variable games : list IGame.

Lemma resetPageEffect_keeps (ev : Event) (st st' : State) :
  selectedTags (resetPageEffect ev st st') = selectedTags st' /\
  searchQuery (resetPageEffect ev st st') = searchQuery st' /\
  sortBy (resetPageEffect ev st st') = sortBy st' /\
  tagSearchQuery (resetPageEffect ev st st') = tagSearchQuery st' /\
  pageInputValue (resetPageEffect ev st st') = pageInputValue st'.
Proof. unfold resetPageEffect. destruct (_ || _ || _)%bool; now repeat split. Qed.

Lemma toggleTag_NoDup (tag : string) (prev : list string) :
  NoDup prev -> NoDup (toggleTag tag prev).
Proof.
  intros Hnd. destruct (in_dec string_dec tag prev) as [Hin | Hout].
  - rewrite toggleTag_present by assumption. now apply NoDup_filter.
  - rewrite toggleTag_absent by assumption.
    apply (Permutation_NoDup (Permutation_cons_append prev tag)).
    now constructor.
Qed.

Lemma toggleTag_incl (tag : string) (prev l : list string) :
  In tag l -> incl prev l -> incl (toggleTag tag prev) l.
Proof.
  intros Htag Hincl x Hx. unfold toggleTag in Hx.
  destruct (existsb (String.eqb tag) prev).
  - apply filter_In in Hx. now apply Hincl.
  - apply in_app_or in Hx. destruct Hx as [Hx | [<- | []]]; [now apply Hincl | assumption].
Qed.

(** The selection never holds a tag twice, and holds only tags of the tag
    list. *)
Theorem selectedTags_invariant (st : State) :
  reachable toLowerCase games st ->
  NoDup (selectedTags st) /\ incl (selectedTags st) (tags toLowerCase games).
Proof.
  induction 1 as [|st ev st' _ [IHn IHi] Hstep].
  - split; [constructor | intros x []].
  - unfold step in Hstep.
    destruct (available toLowerCase games st ev) eqn:Hav; [|discriminate].
    inversion Hstep; subst st'; clear Hstep.
    destruct (resetPageEffect_keeps ev st (handle toLowerCase games st ev))
      as [-> _].
    destruct ev; cbn [handle selectedTags setTagSearchQuery setSelectedTags
                      setSearchQuery setSortBy setCurrentPage setPageInputValue];
      try (split; assumption).
    + cbn [available] in Hav. apply existsb_exists in Hav.
      destruct Hav as [t [Ht Et]]. apply String.eqb_eq in Et. subst t.
      unfold filteredTags in Ht. apply filter_In in Ht. destruct Ht as [Ht _].
      split; [now apply toggleTag_NoDup | now apply toggleTag_incl].
    + split; [constructor | intros x []].
    + destruct (handlePageInputSubmit_keeps
                  (viewTotalPages toLowerCase games st) st) as [-> _].
      split; assumption.
Qed.

Lemma hidden_iff_beyond (st : State) :
  1 <= currentPage st ->
  (paginationShown toLowerCase games st = false <->
   viewTotalPages toLowerCase games st < currentPage st).
Proof.
  intros Hone. unfold paginationShown, viewPage, viewTotalPages.
  pose proof (currentGames_nonempty_iff (viewGames toLowerCase games st)
                (currentPage st) Hone) as Hne.
  rewrite Nat.ltb_ge. split.
  - intros Hlen.
    destruct (Z.lt_ge_cases (totalPages (viewGames toLowerCase games st))
                            (currentPage st)) as [?|Hge]; [assumption|].
    exfalso. apply Hne in Hge. apply Hge, length_zero_iff_nil. lia.
  - intros Hlt.
    destruct (currentGames (viewGames toLowerCase games st) (currentPage st))
      as [|g l] eqn:E; [simpl; lia|].
    exfalso. assert (Hn : g :: l <> []) by discriminate.
    apply Hne in Hn. lia.
Qed.

(** The "no games" message replaces the cards and the pagination exactly
    when the current page is beyond the last one, on every render; and
    between interactions that is exactly when the filter keeps nothing.
    On the render between a change of the filter and the reset effect
    the message can be shown although items match. *)
Theorem empty_page_iff_no_match :
  (forall st,
      rendered toLowerCase games st ->
      (paginationShown toLowerCase games st = false <->
       viewTotalPages toLowerCase games st < currentPage st)) /\
  (forall st,
      reachable toLowerCase games st ->
      (paginationShown toLowerCase games st = false <->
       filteredGames toLowerCase games st = [])).
Proof.
  split.
  - intros st Hr. apply hidden_iff_beyond.
    exact (rendered_page_positive _ _ st Hr).
  - intros st Hreach.
    destruct (reachable_page_in_range _ _ st Hreach) as [Hone Hmax].
    rewrite (hidden_iff_beyond st Hone). split.
    + intros Hlt.
      destruct (filteredGames toLowerCase games st) as [|g l] eqn:Ef; [reflexivity|].
      specialize (Hmax ltac:(discriminate)). lia.
    + intros Hnil.
      destruct (Z.lt_ge_cases (viewTotalPages toLowerCase games st) (currentPage st))
        as [?|Hge]; [assumption|].
      exfalso. unfold viewTotalPages in Hge.
      pose proof (totalPages_bounds (viewGames toLowerCase games st)) as Hb.
      assert (Hlen : List.length (viewGames toLowerCase games st) = 0%nat)
        by (unfold viewGames; now rewrite sortedGames_length, Hnil).
      rewrite Hlen in Hb. change (Z.of_nat 0) with 0 in Hb. lia.
Qed.

Lemma setCurrentPage_back (st : State) (v w : Z) :
  v = currentPage st -> setCurrentPage v (setCurrentPage w st) = st.
Proof. intros ->. now destruct st. Qed.

Lemma paginationShown_moved (st : State) (v : Z) :
  filteredGames toLowerCase games st <> [] ->
  1 <= v <= viewTotalPages toLowerCase games st ->
  paginationShown toLowerCase games (setCurrentPage v st) = true.
Proof.
  intros Hne Hv. unfold paginationShown, viewPage. apply Nat.ltb_lt.
  change (viewGames toLowerCase games (setCurrentPage v st))
    with (viewGames toLowerCase games st).
  cbn [currentPage setCurrentPage].
  pose proof (currentGames_nonempty_iff (viewGames toLowerCase games st) v
                ltac:(lia)) as Hiff.
  assert (Hp : currentGames (viewGames toLowerCase games st) v <> [])
    by (apply Hiff; apply Hv).
  destruct (currentGames (viewGames toLowerCase games st) v);
    [contradiction | simpl; lia].
Qed.

(** "Next" followed by "previous" leads back to the same state, and so
    does "previous" followed by "next": after either button the other one
    is enabled. *)
Theorem next_previous_round_trip (st st1 : State) :
  reachable toLowerCase games st ->
  (step toLowerCase games st NextClick = Some st1 ->
   step toLowerCase games st1 PreviousClick = Some st) /\
  (step toLowerCase games st PreviousClick = Some st1 ->
   step toLowerCase games st1 NextClick = Some st).
Proof.
  intros Hreach. destruct (reachable_page_in_range _ _ st Hreach) as [Hone _].
  split; intros Hstep; unfold step in Hstep;
    destruct (available toLowerCase games st _) eqn:Hav; try discriminate;
    inversion Hstep; subst st1; clear Hstep;
    cbn [available] in Hav; apply andb_true_iff in Hav; destruct Hav as [Hshown Hedge];
    apply negb_true_iff, Z.eqb_neq in Hedge;
    destruct (paginationShown_page _ _ st Hshown Hone) as [Hne Hle];
    unfold resetPageEffect; cbn [fresh_selectedTags handle orb];
    cbn [searchQuery sortBy setCurrentPage]; rewrite !String.eqb_refl; cbn [negb orb];
    unfold step; cbn [available].
  - rewrite paginationShown_moved by (assumption || lia).
    cbn [currentPage setCurrentPage].
    destruct (Z.eqb_spec (currentPage st + 1) 1); [lia|]. cbn [negb andb].
    unfold resetPageEffect. cbn [fresh_selectedTags handle orb].
    cbn [searchQuery sortBy setCurrentPage]. rewrite !String.eqb_refl. cbn [negb orb].
    f_equal. apply setCurrentPage_back. cbn [currentPage setCurrentPage]. lia.
  - rewrite paginationShown_moved by (assumption || lia).
    cbn [currentPage setCurrentPage].
    change (viewTotalPages toLowerCase games
              (setCurrentPage (currentPage st - 1) st))
      with (viewTotalPages toLowerCase games st).
    destruct (Z.eqb_spec (currentPage st - 1) (viewTotalPages toLowerCase games st));
      [lia|]. cbn [negb andb].
    unfold resetPageEffect. cbn [fresh_selectedTags handle orb].
    cbn [searchQuery sortBy setCurrentPage]. rewrite !String.eqb_refl. cbn [negb orb].
    f_equal. apply setCurrentPage_back. cbn [currentPage setCurrentPage]. lia.
Qed.

End Reachable.

Section Handlers.

Variable toLowerCase : string -> string.
Variable games : list IGame.

Lemma includes_empty (s : string) : includes s "" = true.
Proof. destruct s; reflexivity. Qed.

(** "Clear Filters" empties the selection and the tag search text and
    leads to page 1; it keeps the search text and the sort order. With no
    search text every item is then kept, and, [toLowerCase] mapping the
    empty string to itself, the sidebar lists every tag. *)
Theorem clear_filters (st st' : State) :
  step toLowerCase games st ClearFiltersClick = Some st' ->
  selectedTags st' = [] /\ tagSearchQuery st' = "" /\ currentPage st' = 1 /\
  searchQuery st' = searchQuery st /\ sortBy st' = sortBy st /\
  (searchQuery st = "" -> filteredGames toLowerCase games st' = games) /\
  (toLowerCase "" = "" ->
   filteredTags toLowerCase games st' = tags toLowerCase games).
Proof.
  unfold step. cbn [available]. intros H; inversion H; subst st'; clear H.
  unfold resetPageEffect. cbn [fresh_selectedTags orb handle].
  repeat (split; [reflexivity|]). split.
  - intros Hq. unfold filteredGames. cbn [selectedTags searchQuery setCurrentPage
      setSelectedTags setTagSearchQuery]. rewrite Hq.
    apply forallb_filter_id. apply forallb_forall. intros g _. reflexivity.
  - intros Hlow. unfold filteredTags. cbn [tagSearchQuery setCurrentPage
      setSelectedTags setTagSearchQuery]. rewrite Hlow.
    apply forallb_filter_id. apply forallb_forall. intros t _. apply includes_empty.
Qed.

(** Typing in the tag search box or in the page-jump field, and moving
    between pages, change neither the selection, nor the search text, nor
    the sort order, hence not the list of results; typing does not change
    the page either. *)
Theorem results_kept (st st' : State) (ev : Event) :
  step toLowerCase games st ev = Some st' ->
  match ev with
  | TagCheckboxClick _ | ClearFiltersClick | SearchChange _ | SortChange _ => True
  | TagSearchChange _ | PageInputChange _ =>
      viewGames toLowerCase games st' = viewGames toLowerCase games st /\
      viewPage toLowerCase games st' = viewPage toLowerCase games st /\
      currentPage st' = currentPage st
  | PreviousClick | NextClick | PageButtonClick _ | PageInputSubmit =>
      viewGames toLowerCase games st' = viewGames toLowerCase games st /\
      selectedTags st' = selectedTags st /\ searchQuery st' = searchQuery st /\
      sortBy st' = sortBy st
  end.
Proof.
  unfold step. destruct (available toLowerCase games st ev); [|discriminate].
  intros H; inversion H; subst st'; clear H.
  destruct ev; try exact I; unfold resetPageEffect;
    cbn [fresh_selectedTags orb handle].
  - cbn [searchQuery sortBy setTagSearchQuery]. rewrite !String.eqb_refl.
    now repeat split.
  - cbn [searchQuery sortBy setCurrentPage]. rewrite !String.eqb_refl.
    now repeat split.
  - cbn [searchQuery sortBy setCurrentPage]. rewrite !String.eqb_refl.
    now repeat split.
  - cbn [searchQuery sortBy setCurrentPage]. rewrite !String.eqb_refl.
    now repeat split.
  - cbn [searchQuery sortBy setPageInputValue]. rewrite !String.eqb_refl.
    now repeat split.
  - destruct (handlePageInputSubmit_keeps (viewTotalPages toLowerCase games st) st)
      as [Ht [Hq Hs]].
    rewrite Hq, Hs, !String.eqb_refl. cbn [negb orb].
    destruct (view_ext toLowerCase games _ st Ht Hq Hs) as [Hf _].
    unfold viewGames. now rewrite Hf, Hs.
Qed.

End Handlers.

(** ** The display of counts *)

Lemma is_digit_word (c : ascii) : is_digit c = true -> is_word_char c = true.
Proof.
  unfold is_digit, digit_value, is_word_char. cbv zeta.
  destruct ((48 <=? nat_of_ascii c)%nat && (nat_of_ascii c <=? 57)%nat)%bool;
    [reflexivity | discriminate].
Qed.

Lemma all_digits_cons (c : ascii) (s : string) :
  all_digits (String c s) = true <-> is_digit c = true /\ all_digits s = true.
Proof.
  cbn [all_digits]. unfold is_digit. destruct (digit_value c); split;
    try tauto; try discriminate; intros [H _]; discriminate.
Qed.

Lemma digit_run_all_digits (s : string) :
  all_digits s = true -> digit_run s = String.length s.
Proof.
  induction s as [|c s IH]; [reflexivity|]. rewrite all_digits_cons.
  intros [Hc Hs]. cbn [digit_run String.length]. now rewrite Hc, IH.
Qed.

Lemma all_digits_app (s t : string) :
  all_digits (s ++ t) = true <-> all_digits s = true /\ all_digits t = true.
Proof.
  induction s as [|c s IH]; [simpl; tauto|].
  change (String c s ++ t) with (String c (s ++ t)).
  rewrite !all_digits_cons, IH. tauto.
Qed.

Lemma length_append (s t : string) :
  String.length (s ++ t) = (String.length s + String.length t)%nat.
Proof. induction s as [|c s IH]; simpl; [reflexivity | now rewrite IH]. Qed.

Lemma without_separators_insert (prev : option ascii) (s : string) :
  without_separators (insert_separators prev s) = without_separators s.
Proof.
  revert prev; induction s as [|c s IH]; intros prev; [reflexivity|].
  cbn [insert_separators].
  destruct (not_word_boundary prev c && groups_follow (String c s))%bool;
    cbn [without_separators]; rewrite ?Ascii.eqb_refl, IH; reflexivity.
Qed.

Lemma without_separators_digits (s : string) :
  all_digits s = true -> without_separators s = s.
Proof.
  induction s as [|c s IH]; [reflexivity|]. rewrite all_digits_cons.
  intros [Hc Hs]. cbn [without_separators].
  destruct (Ascii.eqb_spec c "."); [subst c; discriminate|]. now rewrite IH.
Qed.

(** Taking the separators out of a grouped count gives the count back:
    grouping only inserts ["."] characters. *)
Theorem groupThousands_round_trip (s : string) :
  without_separators (groupThousands s) = without_separators s /\
  (all_digits s = true -> without_separators (groupThousands s) = s).
Proof.
  unfold groupThousands. split; [apply without_separators_insert|].
  intros Hd. rewrite without_separators_insert. now apply without_separators_digits.
Qed.

(** Within a run of fewer than three digits nothing is inserted. *)
Lemma insert_separators_short (prev : option ascii) (s : string) :
  all_digits s = true -> (String.length s < 3)%nat ->
  insert_separators prev s = s.
Proof.
  revert prev; induction s as [|c s IH]; intros prev Hd Hlen; [reflexivity|].
  cbn [insert_separators]. unfold groups_follow.
  rewrite (digit_run_all_digits _ Hd).
  apply all_digits_cons in Hd. destruct Hd as [_ Hs].
  cbn [String.length] in *.
  assert (Hmod : ((S (String.length s)) mod 3 =? 0)%nat = false).
  { destruct (String.length s) as [|[|n]]; [reflexivity | reflexivity | lia]. }
  rewrite Hmod. rewrite !andb_false_r. now rewrite IH by (assumption || lia).
Qed.

(** A count of at most three digits is shown as it is. *)
Theorem groupThousands_short (s : string) :
  all_digits s = true -> (String.length s <= 3)%nat -> groupThousands s = s.
Proof.
  intros Hd Hlen. unfold groupThousands. destruct s as [|c s]; [reflexivity|].
  cbn [insert_separators]. unfold not_word_boundary.
  apply all_digits_cons in Hd. destruct Hd as [Hc Hs].
  rewrite (is_digit_word c Hc). cbn [Bool.eqb andb].
  cbn [String.length] in Hlen. now rewrite insert_separators_short by (assumption || lia).
Qed.

(** After a digit, a group of three digits gets its separator. *)
Lemma insert_separators_group (p : ascii) (t : string) :
  is_digit p = true -> all_digits t = true -> String.length t = 3%nat ->
  insert_separators (Some p) t = "." ++ t.
Proof.
  intros Hp Hd Hlen. destruct t as [|c t]; [discriminate|].
  cbn [insert_separators]. unfold not_word_boundary, groups_follow.
  rewrite (digit_run_all_digits _ Hd), Hlen.
  apply all_digits_cons in Hd. destruct Hd as [Hc Ht].
  rewrite (is_digit_word p Hp), (is_digit_word c Hc).
  cbn [Bool.eqb andb Nat.ltb Nat.leb Nat.eqb Nat.modulo Nat.divmod fst snd Nat.sub].
  cbn [String.length] in Hlen.
  now rewrite insert_separators_short by (assumption || lia).
Qed.

Lemma insert_separators_app (prev : option ascii) (d t : string) :
  d <> "" -> all_digits d = true -> all_digits t = true ->
  String.length t = 3%nat ->
  insert_separators prev (d ++ t) = insert_separators prev d ++ "." ++ t.
Proof.
  revert prev; induction d as [|c d IH]; intros prev Hne Hd Ht Hlen;
    [contradiction|].
  assert (Hall : all_digits (String c d ++ t) = true)
    by (apply all_digits_app; now split).
  change (String c d ++ t) with (String c (d ++ t)) in *.
  cbn [insert_separators]. unfold groups_follow.
  rewrite (digit_run_all_digits _ Hall), (digit_run_all_digits _ Hd).
  cbn [String.length]. rewrite length_append, Hlen.
  replace (S (String.length d + 3)) with (S (String.length d) + 1 * 3)%nat by lia.
  rewrite Nat.Div0.mod_add.
  apply all_digits_cons in Hd. destruct Hd as [Hc Hd].
  assert (Htail : insert_separators (Some c) (d ++ t)
                  = insert_separators (Some c) d ++ "." ++ t).
  { destruct d as [|c' d'].
    - cbn [append insert_separators]. now apply insert_separators_group.
    - apply IH; [discriminate | assumption | assumption | assumption]. }
  rewrite Htail.
  destruct (not_word_boundary prev c
            && ((0 <? S (String.length d))%nat
                && (S (String.length d) mod 3 =? 0)%nat))%bool eqn:E.
  - replace ((0 <? S (String.length d) + 1 * 3)%nat) with true
      by (symmetry; apply Nat.ltb_lt; lia).
    replace ((0 <? S (String.length d))%nat) with true in E
      by (symmetry; apply Nat.ltb_lt; lia).
    cbn [andb] in *. rewrite E. reflexivity.
  - replace ((0 <? S (String.length d) + 1 * 3)%nat) with true
      by (symmetry; apply Nat.ltb_lt; lia).
    replace ((0 <? S (String.length d))%nat) with true in E
      by (symmetry; apply Nat.ltb_lt; lia).
    cbn [andb] in *. rewrite E. reflexivity.
Qed.

(** Grouping goes by threes from the right: a count that ends in three
    more digits is the grouped count, a separator, and these digits. *)
Theorem groupThousands_groups (d t : string) :
  d <> "" -> all_digits d = true -> all_digits t = true ->
  String.length t = 3%nat ->
  groupThousands (d ++ t) = groupThousands d ++ "." ++ t.
Proof. unfold groupThousands. apply insert_separators_app. Qed.

(** ** Instances of the further properties *)

(** The first of the three pages of thirty items is full. *)
Lemma page_length_witness :
  1 <= 1 /\ List.length (currentGames thirtyGames 1) = 12%nat.
Proof.
  split; [lia|].
  apply (proj1 (proj2 (page_length thirtyGames 1 ltac:(lia)))).
  vm_compute. reflexivity.
Defined.

(** Most comments first: the item of 29 comments is on page 1, that of 17
    on page 2. *)
Lemma pages_in_sort_order_witness :
  comments (mkGame "Game" "Action, RPG" 17 "game.jpg" "https://example.org/game")
  <= comments (mkGame "Game" "Action, RPG" 29 "game.jpg" "https://example.org/game").
Proof.
  apply (proj1 (pages_in_sort_order thirtyGames 1 2
                  (mkGame "Game" "Action, RPG" 29 "game.jpg" "https://example.org/game")
                  (mkGame "Game" "Action, RPG" 17 "game.jpg" "https://example.org/game")
                  ltac:(lia))).
  - vm_compute. left. reflexivity.
  - vm_compute. left. reflexivity.
Defined.

Lemma sortedGames_other_order_witness :
  sortedGames "title" sampleGames = sampleGames.
Proof. apply sortedGames_other_order; discriminate. Defined.

(** Nothing selected against "rpg" selected. *)
Lemma filteredGames_more_tags_witness :
  incl (filteredGames ascii_toLowerCase sampleGames
          (setSelectedTags ["rpg"] initialState))
       (filteredGames ascii_toLowerCase sampleGames initialState).
Proof.
  apply filteredGames_more_tags; [intros x [] | reflexivity].
Defined.

Lemma tags_first_occurrence_witness :
  tags ascii_toLowerCase sampleGames
  = filter not_proto (allGenres ascii_toLowerCase sampleGames).
Proof.
  apply tags_first_occurrence. intros t Ht. vm_compute in Ht.
  destruct Ht as [<- | [<- | []]]; reflexivity.
Defined.

Lemma tag_alone_matches_witness :
  filteredGames ascii_toLowerCase sampleGames
    (setSelectedTags ["rpg"] initialState) <> [].
Proof.
  apply (proj2 (tag_alone_matches ascii_toLowerCase sampleGames "rpg"
                  (setSelectedTags ["rpg"] initialState)
                  ltac:(vm_compute; right; left; reflexivity)
                  eq_refl eq_refl)).
Defined.

Lemma page_values_increasing_witness : 1 <= 8 <= 42.
Proof.
  apply (proj2 (page_values_increasing 42 7) 8).
  vm_compute. do 4 right. left. reflexivity.
Defined.

Lemma current_page_shown_witness :
  1 <= 42 <= 42 /\ In (Num 42) (getPageNumbers 42 42).
Proof.
  split; [lia|]. exact (proj1 (current_page_shown 42 42 ltac:(lia))).
Defined.

Lemma getPageNumbers_ends_witness :
  1 <= 42 /\ last (getPageNumbers 42 7) Ellipsis = Num 42.
Proof.
  split; [lia|]. exact (proj1 (proj2 (getPageNumbers_ends 42 7 ltac:(lia)))).
Defined.

(** The first ellipsis of 1, ..., 6, 7, 8, ..., 42 stands for pages 2 to 5. *)
Lemma ellipsis_marks_gap_witness :
  exists a b,
    last [Num 1] Ellipsis = Num a /\
    hd Ellipsis [Num 6; Num 7; Num 8; Ellipsis; Num 42] = Num b /\ a + 1 < b.
Proof.
  apply (proj2 (ellipsis_marks_gap 42 7) [Num 1]
               [Num 6; Num 7; Num 8; Ellipsis; Num 42]).
  reflexivity.
Defined.

(** The state after ticking "rpg". *)
Lemma selectedTags_invariant_witness :
  NoDup (selectedTags (setCurrentPage 1 (setSelectedTags ["rpg"] initialState))) /\
  incl (selectedTags (setCurrentPage 1 (setSelectedTags ["rpg"] initialState)))
       (tags ascii_toLowerCase sampleGames).
Proof.
  apply (selectedTags_invariant ascii_toLowerCase sampleGames).
  apply (reachable_step _ _ initialState (TagCheckboxClick "rpg")).
  - apply reachable_initial.
  - vm_compute. reflexivity.
Defined.

Lemma empty_page_iff_no_match_witness :
  (paginationShown ascii_toLowerCase sampleGames initialState = false <->
   filteredGames ascii_toLowerCase sampleGames initialState = []) /\
  (paginationShown ascii_toLowerCase thirtyGames
     (handle ascii_toLowerCase thirtyGames initialState (SearchChange "first")) = false <->
   viewTotalPages ascii_toLowerCase thirtyGames
     (handle ascii_toLowerCase thirtyGames initialState (SearchChange "first"))
   < currentPage
       (handle ascii_toLowerCase thirtyGames initialState (SearchChange "first"))).
Proof.
  split.
  - apply (proj2 (empty_page_iff_no_match ascii_toLowerCase sampleGames)).
    apply reachable_initial.
  - apply (proj1 (empty_page_iff_no_match ascii_toLowerCase thirtyGames)).
    apply rendered_pending; [apply reachable_initial | reflexivity].
Defined.

Lemma next_previous_round_trip_witness :
  step ascii_toLowerCase thirtyGames (setCurrentPage 2 initialState) PreviousClick
  = Some initialState.
Proof.
  apply (proj1 (next_previous_round_trip ascii_toLowerCase thirtyGames
                  initialState (setCurrentPage 2 initialState)
                  (reachable_initial _ _))).
  vm_compute. reflexivity.
Defined.

Lemma clear_filters_witness :
  filteredGames ascii_toLowerCase sampleGames
    (setCurrentPage 1 (setSelectedTags [] (setTagSearchQuery "" pageThree)))
  = sampleGames.
Proof.
  apply (proj1 (proj2 (proj2 (proj2 (proj2 (proj2
           (clear_filters ascii_toLowerCase sampleGames pageThree
              (setCurrentPage 1 (setSelectedTags [] (setTagSearchQuery "" pageThree)))
              ltac:(vm_compute; reflexivity)))))))).
  reflexivity.
Defined.

Lemma results_kept_witness :
  viewPage ascii_toLowerCase sampleGames (setTagSearchQuery "rp" initialState)
  = viewPage ascii_toLowerCase sampleGames initialState.
Proof.
  apply (proj1 (proj2 (results_kept ascii_toLowerCase sampleGames initialState
                         (setTagSearchQuery "rp" initialState)
                         (TagSearchChange "rp")
                         ltac:(vm_compute; reflexivity)))).
Defined.

Lemma groupThousands_round_trip_witness :
  without_separators (groupThousands "1234567") = "1234567".
Proof.
  apply (proj2 (groupThousands_round_trip "1234567")). reflexivity.
Defined.

Lemma groupThousands_short_witness : groupThousands "999" = "999".
Proof. apply groupThousands_short; [reflexivity | simpl; lia]. Defined.

Lemma groupThousands_groups_witness :
  groupThousands ("1234" ++ "567") = groupThousands "1234" ++ "." ++ "567".
Proof.
  apply groupThousands_groups; [discriminate | reflexivity | reflexivity | reflexivity].
Defined.

